(** * Hacklace firmware: message player, serial protocol and push button

    A shallow embedding of [Hacklace.c] (ATtiny4313 firmware driving a
    5 x 7 dot matrix display).  Bytes ([uint8_t]) are integers in
    [0, 256) with the wrap-around written out.  EEPROM addresses are
    integers and pointer arithmetic is taken not to overflow; the EEPROM
    is a function from addresses to bytes.  The display driver
    ([dot_matrix.h]) is an external collaborator, so every function
    returns the list of driver calls it makes, in order.  The two loops
    of [DisplayMessage] need not end on an arbitrary EEPROM; they are
    given a bound on their iterations and return [None] when it runs
    out. *)

From Stdlib Require Import ZArith List Bool Lia.
Import ListNotations.
Local Open Scope Z_scope.

(** ** Bytes *)

(** Truncation of an [int] to [uint8_t]. *)
Definition uint8 (x : Z) : Z := x mod 256.

(** The AVR [swap] instruction wrapped by the [swap(x)] macro: exchange
    the two nibbles of a byte. *)
Definition swap (x : Z) : Z :=
  uint8 (Z.lor (Z.shiftl x 4) (Z.shiftr x 4)).

(** ** What the headers provide

    [config.h], [dot_matrix.h] and [animations.h] are not part of the
    sources at hand.  Their constants and tables are taken as parameters
    of the whole development. *)
Class Headers : Type := {
  messages : Z;              (* EEPROM address of the first message *)
  ANIMATION_COUNT : Z;       (* number of entries of [animation] *)
  animation : Z -> Z;        (* flash table: index -> image address *)
  dly_conv : Z -> Z;         (* flash table: delay level -> repetitions *)
  spd_conv : Z -> Z;         (* flash table: speed level -> timer ticks *)
  FORWARD : Z;
  BIDIRECTIONAL : Z;
  PB_MASK : Z;               (* bit of the push button in [PB_PIN] *)
  PB_PRESS : Z;
  PB_RELEASE : Z;
  PB_LONGPRESS : Z;
  PB_ACK : Z;
  PB_LONGPRESS_DELAY : Z
}.

(** ** Calls into the dot matrix driver *)
Inductive dm_call : Type :=
| dmClearDisplay
| dmPrintChar (ch : Z)
| dmPrintByte (b : Z)
| dmDisplayImage (image : Z)
| dmSetScrolling (inc dir dly : Z)
| dmScroll.

(** ** Global variables and the [static] variables of the interrupt
    service routines, together with the EEPROM contents. *)
Record hacklace : Type := mkHacklace {
  eeprom : Z -> Z;
  scroll_speed : Z;
  button : Z;
  msg_ptr : Z;
  ee_write_ptr : Z;
  state : Z;                 (* USART0_RX_vect *)
  val : Z;                   (* USART0_RX_vect *)
  scroll_timer : Z;          (* TIMER0_COMPB_vect *)
  pb_timer : Z               (* TIMER0_COMPB_vect *)
}.

Definition eeprom_read_byte (ee : Z -> Z) (adr : Z) : Z := uint8 (ee adr).

Definition eeprom_write_byte (ee : Z -> Z) (adr v : Z) : Z -> Z :=
  fun a => if a =? adr then uint8 v else ee a.

Definition set_scroll_speed (v : Z) (m : hacklace) : hacklace :=
  mkHacklace (eeprom m) v (button m) (msg_ptr m) (ee_write_ptr m)
             (state m) (val m) (scroll_timer m) (pb_timer m).

Definition set_button (v : Z) (m : hacklace) : hacklace :=
  mkHacklace (eeprom m) (scroll_speed m) v (msg_ptr m) (ee_write_ptr m)
             (state m) (val m) (scroll_timer m) (pb_timer m).

Definition set_msg_ptr (v : Z) (m : hacklace) : hacklace :=
  mkHacklace (eeprom m) (scroll_speed m) (button m) v (ee_write_ptr m)
             (state m) (val m) (scroll_timer m) (pb_timer m).

Definition set_ee_write_ptr (v : Z) (m : hacklace) : hacklace :=
  mkHacklace (eeprom m) (scroll_speed m) (button m) (msg_ptr m) v
             (state m) (val m) (scroll_timer m) (pb_timer m).

Definition set_state (v : Z) (m : hacklace) : hacklace :=
  mkHacklace (eeprom m) (scroll_speed m) (button m) (msg_ptr m)
             (ee_write_ptr m) v (val m) (scroll_timer m) (pb_timer m).

Definition set_val (v : Z) (m : hacklace) : hacklace :=
  mkHacklace (eeprom m) (scroll_speed m) (button m) (msg_ptr m)
             (ee_write_ptr m) (state m) v (scroll_timer m) (pb_timer m).

Definition set_scroll_timer (v : Z) (m : hacklace) : hacklace :=
  mkHacklace (eeprom m) (scroll_speed m) (button m) (msg_ptr m)
             (ee_write_ptr m) (state m) (val m) v (pb_timer m).

Definition set_pb_timer (v : Z) (m : hacklace) : hacklace :=
  mkHacklace (eeprom m) (scroll_speed m) (button m) (msg_ptr m)
             (ee_write_ptr m) (state m) (val m) (scroll_timer m) v.

(** [eeprom_write_byte(ee_write_ptr++, v)] *)
Definition ee_append (v : Z) (m : hacklace) : hacklace :=
  mkHacklace (eeprom_write_byte (eeprom m) (ee_write_ptr m) v)
             (scroll_speed m) (button m) (msg_ptr m) (ee_write_ptr m + 1)
             (state m) (val m) (scroll_timer m) (pb_timer m).

(** ** Serial input states and authentication characters *)
Definition IDLE : Z := 0.
Definition AUTH : Z := 1.
Definition RESET : Z := 2.
Definition DISP_SET_MODE : Z := 3.
Definition DISP_CHAR : Z := 4.
Definition EE_NORMAL : Z := 5.
Definition EE_SPECIAL_CHAR : Z := 6.
Definition EE_HEX_CODE : Z := 7.

Definition AUTH1_CHAR : Z := 72.        (* 'H' *)
Definition EE_AUTH2_CHAR : Z := 76.     (* 'L' *)
Definition DISP_AUTH2_CHAR : Z := 68.   (* 'D' *)

(** The ticks of the system timer that fall into one pass through the
    main loop, by the place where they fall: after the test for a short
    press and before [DisplayMessage] has set the mode, into the rest of
    that call, between the read and the write of [button |= PB_ACK],
    between the two [if] statements, into the delay after a long press,
    into the two delays of [GoToSleep] before and after the sleep, into
    its call of [DisplayMessage] once the mode is set, and between the
    read and the write of the second [button |= PB_ACK]. *)
Record waits : Type := mkWaits {
  before_play : list Z;
  in_play : list Z;
  in_short_ack : list Z;
  between_ifs : list Z;
  in_delay : list Z;
  before_sleep : list Z;
  after_wake : list Z;
  in_restart : list Z;
  in_long_ack : list Z
}.

Definition no_waits : waits := mkWaits [] [] [] [] [] [] [] [] [].

(** What the main program does to [button] from one tick to the next:
    nothing, the statement [button |= PB_ACK] after the tick, or the
    statement with the tick between its read of [button] and its
    write. *)
Inductive ack : Type := no_ack | ack_after | ack_across.

Section Firmware.
Context `{Headers}.

(** ** SetMode *)
Definition SetMode (mode : Z) (m : hacklace) : list dm_call * hacklace :=
  let inc := if Z.land mode 8 =? 0 then 1 else 5 in
  let dir := if Z.land mode 128 =? 0 then FORWARD else BIDIRECTIONAL in
  let spd := Z.land mode 7 in
  let dly := Z.land (swap mode) 7 in
  ([dmSetScrolling inc dir (uint8 (dly_conv dly))],
   set_scroll_speed (uint8 (spd_conv spd)) m).

(** ** DisplayMessage *)

(** The inner loop of direct mode, entered with the byte just read in
    [ch] and [ee_adr] already advanced past it:
    [while (ch != 0xFF) { dmPrintByte(ch); ch = eeprom_read_byte(ee_adr++); }].
    The result is the calls made and [ee_adr] on leaving the loop. *)
Fixpoint direct_mode (fuel : nat) (ee : Z -> Z) (ch ee_adr : Z)
  : option (list dm_call * Z) :=
  if ch =? 255 then Some ([], ee_adr)
  else match fuel with
       | O => None
       | S n =>
           match direct_mode n ee (eeprom_read_byte ee ee_adr) (ee_adr + 1) with
           | Some (out, a) => Some (dmPrintByte ch :: out, a)
           | None => None
           end
       end.

(** The [if / else if / else] chain at the head of the outer loop body,
    for a non-zero [ch] read from [ee_adr - 1]. *)
Definition display_unit (fuel : nat) (ee : Z -> Z) (ch ee_adr : Z)
  : option (list dm_call * Z) :=
  if ch =? 126 (* '~' *) then
    let ch := eeprom_read_byte ee ee_adr in
    let ee_adr := ee_adr + 1 in
    if negb (ch =? 126) then
      let ch := uint8 (ch - 65 (* 'A' *)) in
      if ch <? ANIMATION_COUNT
      then Some ([dmDisplayImage (animation ch)], ee_adr)
      else Some ([], ee_adr)
    else Some ([], ee_adr)
  else if ch =? 255 then
    direct_mode fuel ee (eeprom_read_byte ee ee_adr) (ee_adr + 1)
  else
    if ch =? 94 (* '^' *) then
      let ch := eeprom_read_byte ee ee_adr in
      let ee_adr := ee_adr + 1 in
      let ch := if negb (ch =? 94) then uint8 (ch + 63) else ch in
      Some ([dmPrintChar ch], ee_adr)
    else Some ([dmPrintChar ch], ee_adr).

(** [while (ch) { ...; ch = eeprom_read_byte(ee_adr++);
    if (ch) { dmPrintByte(0); } }] *)
Fixpoint message_loop (fuel : nat) (ee : Z -> Z) (ch ee_adr : Z)
  : option (list dm_call * Z) :=
  if ch =? 0 then Some ([], ee_adr)
  else match fuel with
       | O => None
       | S n =>
           match display_unit n ee ch ee_adr with
           | None => None
           | Some (out, ee_adr) =>
               let ch := eeprom_read_byte ee ee_adr in
               let ee_adr := ee_adr + 1 in
               let gap := if ch =? 0 then [] else [dmPrintByte 0] in
               match message_loop n ee ch ee_adr with
               | None => None
               | Some (rest, ee_adr) => Some (out ++ gap ++ rest, ee_adr)
               end
           end
       end.

(** [DisplayMessage(ee_adr)]: the driver calls, the machine afterwards
    and the returned pointer; [None] when [fuel] loop iterations do not
    reach the end of the message. *)
Definition DisplayMessage (fuel : nat) (ee_adr : Z) (m : hacklace)
  : option (list dm_call * hacklace * Z) :=
  let (out0, m) := SetMode (eeprom_read_byte (eeprom m) ee_adr) m in
  let ee_adr := ee_adr + 1 in
  let ch := eeprom_read_byte (eeprom m) ee_adr in
  let ee_adr := ee_adr + 1 in
  match message_loop fuel (eeprom m) ch ee_adr with
  | None => None
  | Some (out, ee_adr) =>
      let ch := eeprom_read_byte (eeprom m) ee_adr in
      Some (out0 ++ dmClearDisplay :: out, m,
            if ch =? 0 then messages else ee_adr)
  end.

(** ** ISR(TIMER0_COMPB_vect): system timer interrupt

    [pb_pin] is the value read from the input register [PB_PIN]; the
    reload of [OCR0B] is outside the model. *)
Definition pb_sample (pb_pin : Z) : Z :=
  Z.land (uint8 (Z.lnot pb_pin)) PB_MASK.

Definition sample_button (temp : Z) (m : hacklace) : hacklace :=
  if temp =? 0 then
    if negb (Z.land (button m) PB_PRESS =? 0) then
      set_button
        (uint8 (Z.land (button m) (Z.lnot (Z.lor PB_PRESS PB_ACK)))) m
    else m
  else
    if Z.land (button m) PB_PRESS =? 0 then
      set_pb_timer (uint8 PB_LONGPRESS_DELAY) (set_button (uint8 PB_PRESS) m)
    else
      if button m =? PB_PRESS then
        if pb_timer m =? 0 then set_button (uint8 PB_LONGPRESS) m
        else set_pb_timer (pb_timer m - 1) m
      else m.

Definition TIMER0_COMPB_vect (pb_pin : Z) (m : hacklace)
  : list dm_call * hacklace :=
  let (out, m) :=
    if negb (scroll_timer m =? 0)
    then ([], set_scroll_timer (scroll_timer m - 1) m)
    else ([dmScroll], set_scroll_timer (scroll_speed m) m) in
  (out, sample_button (pb_sample pb_pin) m).

(** The system timer interrupt at a sequence of ticks, given the value
    of [PB_PIN] at each. *)
Fixpoint timer_ticks (pins : list Z) (m : hacklace)
  : list dm_call * hacklace :=
  match pins with
  | [] => ([], m)
  | pin :: rest =>
      let (out1, m) := TIMER0_COMPB_vect pin m in
      let (out2, m) := timer_ticks rest m in
      (out1 ++ out2, m)
  end.

(** ** GoToSleep and the main loop

    The main program runs with the interrupts enabled, and the system
    timer goes on ticking while it runs: [w] gives, for each place of a
    pass through the main loop, the values of [PB_PIN] at the ticks that
    fall there.  The machine is taken through these ticks; the driver
    calls listed are those of the main program alone, the ones the
    handler makes are its own.  [DisplayMessage] and the handler share
    one variable, [scroll_speed], which the call writes first of all and
    the handler reads: so the ticks that fall into the call are taken
    before it or after it, as they come before or after that write.
    [button] is volatile: [button |= PB_ACK] reads it, and writes it
    after the ticks that fall in between.  The sleep instruction itself
    and the interrupt mask registers leave no trace; no byte is taken to
    arrive on the serial line during a pass. *)
Definition during (pins : list Z) (m : hacklace) : hacklace :=
  snd (timer_ticks pins m).

Definition GoToSleep (fuel : nat) (w : waits) (m : hacklace)
  : option (list dm_call * hacklace) :=
  let m := during (before_sleep w) m in          (* _delay_ms(1000) *)
  let m := during (after_wake w) m in            (* _delay_ms(500) *)
  match DisplayMessage fuel messages m with
  | None => None
  | Some (out, m, next) =>
      let m := during (in_restart w) m in
      Some (dmClearDisplay :: dmPrintChar 131 :: out, set_msg_ptr next m)
  end.

(** One pass through the body of [while(1)] in [main]. *)
Definition main_loop_body (fuel : nat) (w : waits) (m : hacklace)
  : option (list dm_call * hacklace) :=
  let short :=
    if button m =? PB_RELEASE then
      let m := during (before_play w) m in
      match DisplayMessage fuel (msg_ptr m) m with
      | None => None
      | Some (out, m, next) =>
          let m := during (in_play w) m in
          let m := set_msg_ptr next m in
          let b := button m in                   (* button |= PB_ACK *)
          let m := during (in_short_ack w) m in
          Some (out, set_button (uint8 (Z.lor b PB_ACK)) m)
      end
    else Some ([], m) in
  match short with
  | None => None
  | Some (out1, m) =>
      let m := during (between_ifs w) m in
      if button m =? PB_LONGPRESS then
        let m := during (in_delay w) m in        (* _delay_ms(500) *)
        match GoToSleep fuel w m with
        | None => None
        | Some (out2, m) =>
            let b := button m in                 (* button |= PB_ACK *)
            let m := during (in_long_ack w) m in
            Some (out1 ++ dmClearDisplay :: dmPrintChar 130 :: out2,
                  set_button (uint8 (Z.lor b PB_ACK)) m)
        end
      else Some (out1, m)
  end.

(** ** ISR(USART0_RX_vect): one received byte

    [fe] is the framing error flag of [UCSRA], [udr] the data register. *)
Definition rx_switch (ch : Z) (m : hacklace) : list dm_call * hacklace :=
  let st := state m in
  if st =? IDLE then
    ([], set_state (if ch =? AUTH1_CHAR then AUTH else IDLE) m)
  else if st =? AUTH then
    ([], set_state (if ch =? EE_AUTH2_CHAR then EE_NORMAL
                    else if ch =? DISP_AUTH2_CHAR then DISP_SET_MODE
                    else IDLE) m)
  else if st =? RESET then
    ([dmClearDisplay; dmPrintChar 129],
     set_state IDLE (set_ee_write_ptr messages (set_msg_ptr messages m)))
  else if st =? DISP_SET_MODE then
    let (out, m) := SetMode ch m in
    (dmClearDisplay :: out, set_state DISP_CHAR m)
  else if st =? DISP_CHAR then
    if (ch =? 13) || (ch =? 10) then ([dmClearDisplay], m)
    else ([dmPrintChar ch; dmPrintByte 0], m)
  else if st =? EE_NORMAL then
    if ch =? 94 (* '^' *) then ([], set_state EE_SPECIAL_CHAR m)
    else if ch =? 36 (* '$' *) then ([], set_state EE_HEX_CODE (set_val 0 m))
    else if (ch =? 13) || (ch =? 10) then ([], ee_append 0 m)
    else if 32 <=? ch then ([], ee_append ch m)
    else ([], m)
  else if st =? EE_SPECIAL_CHAR then
    ([], set_state EE_NORMAL (ee_append (ch + 63) m))
  else if st =? EE_HEX_CODE then
    let ch := if 65 <=? ch then uint8 (ch - (65 - 57 - 1)) else ch in
    let ch := uint8 (ch - 48) in
    if 15 <? ch then ([], set_state EE_NORMAL (ee_append (val m) m))
    else ([], set_val (uint8 (uint8 (Z.shiftl (val m) 4) + ch)) m)
  else ([], m).

Definition USART0_RX_vect (fe : bool) (udr : Z) (m : hacklace)
  : list dm_call * hacklace :=
  if fe then ([], m)
  else
    let ch := uint8 udr in
    let m := if ch =? 27 then set_state RESET m else m in
    let echo :=
      if EE_NORMAL <=? state m then [dmClearDisplay; dmPrintChar ch]
      else [] in
    let (out, m) := rx_switch ch m in
    (echo ++ out, m).

(** A sequence of bytes received without framing errors. *)
Fixpoint receive (bytes : list Z) (m : hacklace) : list dm_call * hacklace :=
  match bytes with
  | [] => ([], m)
  | b :: rest =>
      let (out1, m) := USART0_RX_vect false b m in
      let (out2, m) := receive rest m in
      (out1 ++ out2, m)
  end.

End Firmware.

(** ** Messages as sequences of units

    The body of a message, read the way [DisplayMessage] reads it: a
    plain character, ['^'] and one more byte, ['~'] and one more byte,
    or a run of raw bytes between two [0xFF]. *)
Inductive unit_ : Type :=
| Literal (c : Z)
| Escaped (b : Z)
| AnimRef (b : Z)
| DirectRun (raw : list Z).

Definition is_byte (b : Z) : bool := (0 <=? b) && (b <? 256).

(** The units the decoder can meet: a literal is a non-zero byte that is
    no marker, the byte after a marker is any byte, and a raw byte is any
    byte but the closing [0xFF]. *)
Definition unit_ok (u : unit_) : bool :=
  match u with
  | Literal c =>
      is_byte c && negb (c =? 0) && negb (c =? 126) && negb (c =? 255)
      && negb (c =? 94)
  | Escaped b => is_byte b
  | AnimRef b => is_byte b
  | DirectRun raw => forallb (fun b => is_byte b && negb (b =? 255)) raw
  end.

Definition encode_unit (u : unit_) : list Z :=
  match u with
  | Literal c => [c]
  | Escaped b => [94; b]
  | AnimRef b => [126; b]
  | DirectRun raw => 255 :: raw ++ [255]
  end.

Definition encode (us : list unit_) : list Z := flat_map encode_unit us.

(** The EEPROM holds the bytes [bs] from address [adr] on. *)
Fixpoint stored (ee : Z -> Z) (adr : Z) (bs : list Z) : Prop :=
  match bs with
  | [] => True
  | b :: rest => eeprom_read_byte ee adr = b /\ stored ee (adr + 1) rest
  end.

(** Lay [bs] out from address [adr] on; every other cell keeps [ee]. *)
Fixpoint store_at (ee : Z -> Z) (adr : Z) (bs : list Z) : Z -> Z :=
  match bs with
  | [] => ee
  | b :: rest => eeprom_write_byte (store_at ee (adr + 1) rest) adr b
  end.

Section Notions.
Context `{Headers}.

(** The driver calls the loop body makes for one unit. *)
Definition unit_calls (u : unit_) : list dm_call :=
  match u with
  | Literal c => [dmPrintChar c]
  | Escaped b => [dmPrintChar (if b =? 94 then 94 else uint8 (b + 63))]
  | AnimRef b =>
      if b =? 126 then []
      else if uint8 (b - 65) <? ANIMATION_COUNT
           then [dmDisplayImage (animation (uint8 (b - 65)))]
           else []
  | DirectRun raw => map dmPrintByte raw
  end.

(** Units in sequence, one blank column between neighbours. *)
Fixpoint spaced (render : unit_ -> list dm_call) (us : list unit_)
  : list dm_call :=
  match us with
  | [] => []
  | [u] => render u
  | u :: rest => render u ++ dmPrintByte 0 :: spaced render rest
  end.

(** The blank column that separates a unit from its neighbours, when
    there are any on that side. *)
Definition gap (us : list unit_) : list dm_call :=
  match us with
  | [] => []
  | _ :: _ => [dmPrintByte 0]
  end.

(** [displays m adr mode pre u post mid]: whenever the EEPROM of [m]
    holds at [adr] the message with mode byte [mode] whose body is the
    units [pre], then [u], then [post], [DisplayMessage] returns, and
    between the display of [pre] and that of [post], each set off by its
    blank column, the calls made for [u] are exactly [mid]. *)
Definition displays (m : hacklace) (adr mode : Z) (pre : list unit_)
           (u : unit_) (post : list unit_) (mid : list dm_call) : Prop :=
  forall fuel : nat,
    stored (eeprom m) adr (mode :: encode (pre ++ u :: post) ++ [0]) ->
    (length (encode (pre ++ u :: post)) <= fuel)%nat ->
    exists m' next,
      DisplayMessage fuel adr m =
      Some (fst (SetMode mode m) ++ dmClearDisplay ::
              spaced unit_calls pre ++ gap pre ++ mid ++ gap post
              ++ spaced unit_calls post,
            m', next).

(** The display of one unit as the data model of the specification
    words it: a font glyph for a literal, code [b + 63] after ['^'] with
    ['^^'] the literal ['^'], the animation image after ['~'] with
    ['~~'] the literal ['~'] and nothing for an index past the
    animation count, the raw columns of a direct-mode run. *)
Definition spec_unit_calls (u : unit_) : list dm_call :=
  match u with
  | Literal c => [dmPrintChar c]
  | Escaped b => if b =? 94 then [dmPrintChar 94]
                 else [dmPrintChar (uint8 (b + 63))]
  | AnimRef b =>
      if b =? 126 then [dmPrintChar 126]
      else if uint8 (b - 65) <? ANIMATION_COUNT
           then [dmDisplayImage (animation (uint8 (b - 65)))]
           else []
  | DirectRun raw => map dmPrintByte raw
  end.

(** ** Push button events

    A tick raises the event [ev] when it leaves [button] equal to [ev]
    and had not found it so. *)
Definition raises (ev before after : Z) : bool :=
  (after =? ev) && negb (before =? ev).

(** A schedule is a list of ticks: the value of [PB_PIN] sampled by the
    tick, and what the main program does to [button] before the next
    one.  The main program gets to a statement [button |= PB_ACK] after
    [GoToSleep] at the start and, in its loop, after it has taken up an
    event and called [DisplayMessage] or [GoToSleep]; when that is, is
    not for the tick handler to know, so the statement may fall between
    any two ticks, and a tick between its read and its write.  The
    statement is a matter of a few instructions: no more than one tick
    falls into it, and executing it twice between two ticks is
    executing it once. *)
Definition tick (t : Z * ack) (m : hacklace) : hacklace :=
  snd (TIMER0_COMPB_vect (fst t) m).

Definition tick_step (t : Z * ack) (m : hacklace) : hacklace :=
  let m' := tick t m in
  match snd t with
  | no_ack => m'
  | ack_after => set_button (uint8 (Z.lor (button m') PB_ACK)) m'
  | ack_across => set_button (uint8 (Z.lor (button m) PB_ACK)) m'
  end.


Fixpoint count_events (ev : Z) (ticks : list (Z * ack)) (m : hacklace)
  : nat :=
  match ticks with
  | [] => O
  | t :: rest =>
      ((if raises ev (button m) (button (tick t m)) then 1 else 0)
       + count_events ev rest (tick_step t m))%nat
  end.


Definition pressed (t : Z * ack) : Prop := pb_sample (fst t) <> 0.
Definition released (t : Z * ack) : Prop := pb_sample (fst t) = 0.


(** The situations of the button logic between two ticks: at rest (the
    last state was "not pressed"), and held after the long press was
    raised, acknowledged or not. *)
Definition at_rest (m : hacklace) : Prop := Z.land (button m) PB_PRESS = 0.


(** What the button logic needs of the event codes of [config.h]. *)
Definition button_codes_ok : Prop :=
  PB_RELEASE = 0 /\
  0 < PB_PRESS < 256 /\
  0 <= PB_LONGPRESS < 256 /\
  0 <= PB_ACK < 256 /\
  Z.land PB_ACK PB_PRESS = 0 /\
  Z.land PB_LONGPRESS PB_PRESS <> 0 /\
  Z.land PB_LONGPRESS (Z.lnot (Z.lor PB_PRESS PB_ACK)) <> 0.

(** The initial values of the variables, over a given EEPROM. *)
Definition power_on (ee : Z -> Z) : hacklace :=
  mkHacklace ee 8 (uint8 PB_ACK) 0 messages IDLE 0 1 0.

End Notions.

(** The value the arithmetic of [EE_HEX_CODE] gives to a received byte:
    ['0'..'9'] and the six bytes after ['9'] count 0..15, ['A'..'F']
    count 10..15; every other byte ends the literal. *)
Definition hex_digit (ch : Z) : option Z :=
  if (48 <=? ch) && (ch <=? 63) then Some (ch - 48)
  else if (65 <=? ch) && (ch <=? 70) then Some (ch - 55)
  else None.

(** ** Sample values

    Concrete headers to run the definitions on: the message area at
    EEPROM address 0, three animations, identity tables, the button on
    bit 6 of its port. *)
Definition sample_headers : Headers := {|
  messages := 0;
  ANIMATION_COUNT := 3;
  animation := fun i => 1000 + 40 * i;
  dly_conv := fun d => d;
  spd_conv := fun s => s;
  FORWARD := 0;
  BIDIRECTIONAL := 1;
  PB_MASK := 64;
  PB_PRESS := 1;
  PB_RELEASE := 0;
  PB_LONGPRESS := 3;
  PB_ACK := 128;
  PB_LONGPRESS_DELAY := 2
|}.

Definition blank_eeprom : Z -> Z := fun _ => 0.

(** A store with the one message ["HI"], and one with the two messages
    ["H"] and ["I"]. *)
Definition ee_hi : Z -> Z := store_at blank_eeprom 0 [3; 72; 73; 0; 0].
Definition ee_two : Z -> Z := store_at blank_eeprom 0 [3; 72; 0; 5; 73; 0; 0].

(** [PB_PIN] with the button down (its bit reads 0) and up. *)
Definition pin_down : Z := 0.
Definition pin_up : Z := 64.

(** ** Further notions: mode bytes, typed text, play lists, timer runs *)

(** The mode byte with the given fields: bit 7 the scrolling direction,
    bits 6..4 the delay level, bit 3 the scrolling increment, bits 2..0
    the speed level. *)
Definition mode_byte (bidirectional : bool) (dly : Z) (step5 : bool) (spd : Z)
  : Z :=
  (if bidirectional then 128 else 0) + 16 * dly
  + (if step5 then 8 else 0) + spd.

(** The bytes [EE_NORMAL] stores as they come: printable and neither
    ['^'] nor ['$'].  A plain byte is moreover no marker of the message
    format. *)
Definition typed (c : Z) : bool :=
  (32 <=? c) && (c <? 256) && negb (c =? 94) && negb (c =? 36).

Definition plain (c : Z) : bool :=
  typed c && negb (c =? 126) && negb (c =? 255).

Definition is_ee_state (st : Z) : bool :=
  (st =? EE_NORMAL) || (st =? EE_SPECIAL_CHAR) || (st =? EE_HEX_CODE).

(** The character of a hex digit value, and the number a string of hex
    digit characters spells, most significant digit first. *)
Definition hex_char (d : Z) : Z := if d <? 10 then 48 + d else 55 + d.

Definition hex_step (acc c : Z) : Z :=
  acc * 16 + match hex_digit c with
             | Some d => d
             | None => 0
             end.

Definition hex_number (digits : list Z) : Z := fold_left hex_step digits 0.

(** A play list in the EEPROM: the messages one after the other, each
    as mode byte, body and zero terminator, and a zero byte where the
    next mode byte would be. *)
Definition lay_out (msgs : list (Z * list unit_)) : list Z :=
  flat_map (fun msg => fst msg :: encode (snd msg) ++ [0]) msgs ++ [0].

Section MoreNotions.
Context `{Headers}.

(** The driver calls that show one message of a play list. *)
Definition shown (msg : Z * list unit_) : list dm_call :=
  fst (SetMode (fst msg) (power_on blank_eeprom))
  ++ dmClearDisplay :: spaced unit_calls (snd msg).

(** Short presses of the button, each taken up by the main loop: the
    tick handler leaves [PB_RELEASE] in [button] and the main loop runs
    through its body, with the waits given for each press. *)
Fixpoint short_presses (fuel : nat) (ws : list waits) (m : hacklace)
  : option (list dm_call * hacklace) :=
  match ws with
  | [] => Some ([], m)
  | w :: ws =>
      match main_loop_body fuel w (set_button PB_RELEASE m) with
      | None => None
      | Some (out, m) =>
          match short_presses fuel ws m with
          | None => None
          | Some (rest, m) => Some (out ++ rest, m)
          end
      end
  end.

(** Every [uint8_t] variable holds a byte. *)
Definition byte_valued (m : hacklace) : Prop :=
  0 <= scroll_speed m < 256 /\ 0 <= button m < 256 /\
  0 <= state m < 256 /\ 0 <= val m < 256 /\
  0 <= scroll_timer m < 256 /\ 0 <= pb_timer m < 256.

End MoreNotions.

(** * Properties *)

Section Properties.
Context `{Headers}.

(** ** Bytes and stored sequences *)

Lemma uint8_small (x : Z) : 0 <= x < 256 -> uint8 x = x.
Proof. intros Hx. unfold uint8. now apply Z.mod_small. Qed.

Lemma uint8_range (x : Z) : 0 <= uint8 x < 256.
Proof. unfold uint8. apply Z.mod_pos_bound. lia. Qed.

Lemma is_byte_spec (b : Z) : is_byte b = true <-> 0 <= b < 256.
Proof. unfold is_byte. rewrite andb_true_iff, Z.leb_le, Z.ltb_lt. tauto. Qed.

Lemma stored_app (ee : Z -> Z) (bs cs : list Z) (adr : Z) :
  stored ee adr (bs ++ cs) <->
  stored ee adr bs /\ stored ee (adr + Z.of_nat (length bs)) cs.
Proof.
  revert adr. induction bs as [|b bs IH]; intros adr.
  - simpl. rewrite Z.add_0_r. tauto.
  - cbn [app stored length]. rewrite IH.
    replace (adr + 1 + Z.of_nat (length bs))
      with (adr + Z.of_nat (S (length bs))) by lia.
    tauto.
Qed.

Lemma store_at_other (ee : Z -> Z) (bs : list Z) (adr a : Z) :
  a < adr \/ adr + Z.of_nat (length bs) <= a ->
  store_at ee adr bs a = ee a.
Proof.
  revert adr. induction bs as [|b bs IH]; intros adr Ha.
  - reflexivity.
  - cbn [store_at length] in *. unfold eeprom_write_byte.
    destruct (Z.eqb_spec a adr) as [->|Hne]; [lia|].
    apply IH. lia.
Qed.

Lemma stored_write_below (f : Z -> Z) (bs : list Z) (adr v a0 : Z) :
  adr < a0 -> stored f a0 bs -> stored (eeprom_write_byte f adr v) a0 bs.
Proof.
  revert a0. induction bs as [|c cs IHc]; intros a0 Hlt Hs; [exact I|].
  cbn [stored] in *. destruct Hs as [Hc Hs]. split.
  - unfold eeprom_read_byte, eeprom_write_byte in *.
    destruct (Z.eqb_spec a0 adr); [lia | exact Hc].
  - apply IHc; [lia | exact Hs].
Qed.

Lemma stored_store_at (ee : Z -> Z) (bs : list Z) (adr : Z) :
  forallb is_byte bs = true -> stored (store_at ee adr bs) adr bs.
Proof.
  revert adr. induction bs as [|b bs IH]; intros adr Hb.
  - exact I.
  - cbn [forallb] in Hb. apply andb_true_iff in Hb as [Hb Hbs].
    apply is_byte_spec in Hb.
    cbn [stored store_at]. split.
    + unfold eeprom_read_byte, eeprom_write_byte.
      rewrite Z.eqb_refl. now rewrite !uint8_small by (try apply uint8_range; lia).
    + apply stored_write_below; [lia | now apply IH].
Qed.

(** ** The decoder on encoded units *)

Lemma direct_mode_eq (fuel : nat) (ee : Z -> Z) (ch ee_adr : Z) :
  direct_mode fuel ee ch ee_adr =
  if ch =? 255 then Some ([], ee_adr)
  else match fuel with
       | O => None
       | S n =>
           match direct_mode n ee (eeprom_read_byte ee ee_adr) (ee_adr + 1) with
           | Some (out, a) => Some (dmPrintByte ch :: out, a)
           | None => None
           end
       end.
Proof. destruct fuel; reflexivity. Qed.

Lemma message_loop_eq (fuel : nat) (ee : Z -> Z) (ch ee_adr : Z) :
  message_loop fuel ee ch ee_adr =
  if ch =? 0 then Some ([], ee_adr)
  else match fuel with
       | O => None
       | S n =>
           match display_unit n ee ch ee_adr with
           | None => None
           | Some (out, a) =>
               match message_loop n ee (eeprom_read_byte ee a) (a + 1) with
               | None => None
               | Some (rest, a') =>
                   Some (out ++ (if eeprom_read_byte ee a =? 0 then []
                                 else [dmPrintByte 0]) ++ rest, a')
               end
           end
       end.
Proof. destruct fuel; reflexivity. Qed.

Lemma direct_mode_raw (raw : list Z) :
  forall (ee : Z -> Z) (adr : Z) (fuel : nat),
    forallb (fun b => is_byte b && negb (b =? 255)) raw = true ->
    stored ee adr (raw ++ [255]) ->
    (length raw <= fuel)%nat ->
    direct_mode fuel ee (eeprom_read_byte ee adr) (adr + 1) =
    Some (map dmPrintByte raw, adr + Z.of_nat (length raw) + 1).
Proof.
  induction raw as [|b raw IH]; intros ee adr fuel Hok Hst Hfuel.
  - cbn [app stored] in Hst. destruct Hst as [-> _].
    rewrite direct_mode_eq. cbn. f_equal. f_equal. lia.
  - cbn [app stored forallb length] in *.
    destruct Hst as [Hb Hst].
    apply andb_true_iff in Hok as [Hb' Hok].
    apply andb_true_iff in Hb' as [_ Hne].
    rewrite direct_mode_eq, Hb.
    destruct (b =? 255); [discriminate|].
    destruct fuel as [|n]; [lia|].
    rewrite (IH ee (adr + 1) n Hok Hst) by lia.
    cbn [map]. f_equal. f_equal. lia.
Qed.

Lemma display_unit_encoded (u : unit_) (ee : Z -> Z) (adr : Z) (fuel : nat) :
  unit_ok u = true ->
  stored ee adr (encode_unit u) ->
  (length (encode_unit u) <= S fuel)%nat ->
  display_unit fuel ee (eeprom_read_byte ee adr) (adr + 1) =
  Some (unit_calls u, adr + Z.of_nat (length (encode_unit u))).
Proof.
  intros Hok Hst Hfuel. destruct u as [c|b|b|raw]; cbn [unit_ok encode_unit] in *.
  - destruct Hst as [-> _].
    repeat (apply andb_true_iff in Hok as [Hok ?]).
    unfold display_unit.
    destruct (c =? 126); [discriminate|].
    destruct (c =? 255); [discriminate|].
    destruct (c =? 94); [discriminate|].
    reflexivity.
  - destruct Hst as [-> [Hb _]].
    unfold display_unit. cbn [Z.eqb Pos.eqb]. rewrite Hb.
    cbn [unit_calls length]. destruct (Z.eqb_spec b 94) as [->|_]; cbn [negb];
      do 2 f_equal; lia.
  - destruct Hst as [-> [Hb _]].
    unfold display_unit. cbn [Z.eqb Pos.eqb]. rewrite Hb.
    cbn [unit_calls length]. destruct (b =? 126); cbn [negb].
    + do 2 f_equal; lia.
    + destruct (uint8 (b - 65) <? ANIMATION_COUNT); do 2 f_equal; lia.
  - cbn [stored] in Hst. destruct Hst as [-> Hst].
    unfold display_unit. cbn [Z.eqb Pos.eqb].
    cbn [length] in *. rewrite length_app in *. cbn [length] in *.
    rewrite (direct_mode_raw raw ee (adr + 1) fuel Hok Hst) by lia.
    cbn [unit_calls]. f_equal. f_equal. lia.
Qed.

Lemma encode_unit_head (u : unit_) :
  unit_ok u = true ->
  exists b rest, encode_unit u = b :: rest /\ b <> 0.
Proof.
  destruct u as [c|b|b|raw]; cbn [unit_ok encode_unit]; intros Hok.
  - exists c, []. split; [reflexivity|].
    repeat (apply andb_true_iff in Hok as [Hok ?]).
    intros ->. discriminate.
  - exists 94, [b]. split; [reflexivity | discriminate].
  - exists 126, [b]. split; [reflexivity | discriminate].
  - exists 255, (raw ++ [255]). split; [reflexivity | discriminate].
Qed.

Lemma message_loop_encoded (us : list unit_) :
  forall (ee : Z -> Z) (adr : Z) (fuel : nat),
    forallb unit_ok us = true ->
    stored ee adr (encode us ++ [0]) ->
    (length (encode us) <= fuel)%nat ->
    message_loop fuel ee (eeprom_read_byte ee adr) (adr + 1) =
    Some (spaced unit_calls us, adr + Z.of_nat (length (encode us)) + 1).
Proof.
  induction us as [|u us IH]; intros ee adr fuel Hok Hst Hfuel.
  - cbn in Hst. destruct Hst as [-> _].
    rewrite message_loop_eq. cbn. f_equal. f_equal. lia.
  - cbn [forallb] in Hok. apply andb_true_iff in Hok as [Hu Hus].
    unfold encode in *. cbn [flat_map] in *. fold (encode us) in *.
    rewrite <- app_assoc in Hst. apply stored_app in Hst as [Hst1 Hst2].
    rewrite length_app in *.
    destruct (encode_unit_head u Hu) as (b & tl & Hhd & Hb0).
    assert (Hlen : (1 <= length (encode_unit u))%nat)
      by (rewrite Hhd; cbn; lia).
    rewrite message_loop_eq.
    assert (Hch : eeprom_read_byte ee adr = b)
      by (rewrite Hhd in Hst1; exact (proj1 Hst1)).
    rewrite Hch. destruct (Z.eqb_spec b 0) as [|_]; [contradiction|].
    rewrite <- Hch.
    destruct fuel as [|n]; [lia|].
    rewrite (display_unit_encoded u ee adr n Hu Hst1) by lia.
    set (adr' := adr + Z.of_nat (length (encode_unit u))) in *.
    rewrite (IH ee adr' n Hus Hst2) by lia.
    f_equal. f_equal.
    + destruct us as [|u' us'].
      * cbn in Hst2. destruct Hst2 as [-> _]. cbn. now rewrite app_nil_r.
      * cbn [forallb] in Hus. apply andb_true_iff in Hus as [Hu' _].
        destruct (encode_unit_head u' Hu') as (b' & tl' & Hhd' & Hb0').
        unfold encode in Hst2. cbn [flat_map] in Hst2. rewrite Hhd' in Hst2.
        cbn [app stored] in Hst2. destruct Hst2 as [-> _].
        destruct (Z.eqb_spec b' 0) as [|_]; [contradiction|].
        reflexivity.
    + subst adr'. rewrite Nat2Z.inj_add. lia.
Qed.

(** [DisplayMessage] on a message laid out as mode byte, encoded units
    and zero terminator: it returns, and what it returns is determined
    by the units and by the byte after the terminator. *)
Lemma DisplayMessage_encoded (us : list unit_) (mode adr : Z) (m : hacklace)
      (fuel : nat) :
  forallb unit_ok us = true ->
  stored (eeprom m) adr (mode :: encode us ++ [0]) ->
  (length (encode us) <= fuel)%nat ->
  let next := adr + Z.of_nat (length (encode us)) + 2 in
  DisplayMessage fuel adr m =
  Some (fst (SetMode mode m) ++ dmClearDisplay :: spaced unit_calls us,
        snd (SetMode mode m),
        if eeprom_read_byte (eeprom m) next =? 0 then messages else next).
Proof.
  intros Hok Hst Hfuel next. cbn [stored] in Hst. destruct Hst as [Hmode Hst].
  unfold DisplayMessage. rewrite Hmode. cbn [SetMode set_scroll_speed eeprom].
  rewrite (message_loop_encoded us (eeprom m) (adr + 1) fuel Hok Hst Hfuel).
  replace (adr + 1 + Z.of_nat (length (encode us)) + 1) with next
    by (subst next; lia).
  reflexivity.
Qed.

(** ** Every run that returns has read such a message *)

Lemma direct_mode_reads (fuel : nat) :
  forall (ee : Z -> Z) (ch adr : Z) (out : list dm_call) (a : Z),
    is_byte ch = true ->
    direct_mode fuel ee ch adr = Some (out, a) ->
    exists raw tail,
      forallb (fun b => is_byte b && negb (b =? 255)) raw = true /\
      raw ++ [255] = ch :: tail /\
      stored ee adr tail /\
      a = adr + Z.of_nat (length tail) /\
      out = map dmPrintByte raw.
Proof.
  induction fuel as [|n IH]; intros ee ch adr out a Hch Hrun;
    rewrite direct_mode_eq in Hrun;
    destruct (Z.eqb_spec ch 255) as [->|Hne].
  1,3: injection Hrun as <- <-; exists [], []; cbn;
       repeat split; lia.
  - discriminate.
  - destruct (direct_mode n ee (eeprom_read_byte ee adr) (adr + 1))
      as [[out' a']|] eqn:Hrec; [|discriminate].
    injection Hrun as <- <-.
    apply IH in Hrec as (raw & tail & Hok & Hcat & Hst & -> & ->);
      [|apply is_byte_spec, uint8_range].
    exists (ch :: raw), (eeprom_read_byte ee adr :: tail).
    cbn [forallb app stored length map]. rewrite Hch, Hok, Hcat.
    destruct (Z.eqb_spec ch 255) as [|_]; [contradiction|].
    repeat split; try assumption; lia.
Qed.

Lemma display_unit_reads (fuel : nat) (ee : Z -> Z) (ch adr : Z)
      (out : list dm_call) (a : Z) :
  is_byte ch = true -> ch <> 0 ->
  display_unit fuel ee ch adr = Some (out, a) ->
  exists u tail,
    unit_ok u = true /\
    encode_unit u = ch :: tail /\
    stored ee adr tail /\
    a = adr + Z.of_nat (length tail) /\
    out = unit_calls u.
Proof.
  intros Hch Hnz Hrun. unfold display_unit in Hrun.
  assert (Hb : is_byte (eeprom_read_byte ee adr) = true)
    by apply is_byte_spec, uint8_range.
  destruct (Z.eqb_spec ch 126) as [->|H126].
  - exists (AnimRef (eeprom_read_byte ee adr)), [eeprom_read_byte ee adr].
    cbn [unit_ok encode_unit stored length unit_calls].
    destruct (eeprom_read_byte ee adr =? 126); cbn [negb] in Hrun.
    + injection Hrun as <- <-. repeat split; try assumption; lia.
    + destruct (uint8 (eeprom_read_byte ee adr - 65) <? ANIMATION_COUNT);
        injection Hrun as <- <-; repeat split; try assumption; lia.
  - destruct (Z.eqb_spec ch 255) as [->|H255].
    + apply direct_mode_reads in Hrun as (raw & tail & Hok & Hcat & Hst & -> & ->);
        [|exact Hb].
      exists (DirectRun raw), (eeprom_read_byte ee adr :: tail).
      cbn [unit_ok encode_unit stored length unit_calls]. rewrite Hcat.
      repeat split; try assumption; lia.
    + destruct (Z.eqb_spec ch 94) as [->|H94].
      * exists (Escaped (eeprom_read_byte ee adr)), [eeprom_read_byte ee adr].
        cbn [unit_ok encode_unit stored length unit_calls].
        injection Hrun as <- <-.
        destruct (Z.eqb_spec (eeprom_read_byte ee adr) 94) as [->|_];
          cbn [negb]; repeat split; try assumption; lia.
      * exists (Literal ch), [].
        cbn [unit_ok encode_unit stored length unit_calls].
        injection Hrun as <- <-. rewrite Hch.
        destruct (Z.eqb_spec ch 0), (Z.eqb_spec ch 126), (Z.eqb_spec ch 255),
          (Z.eqb_spec ch 94); try contradiction.
        repeat split; lia.
Qed.

Lemma message_loop_reads (fuel : nat) :
  forall (ee : Z -> Z) (ch adr : Z) (out : list dm_call) (a : Z),
    is_byte ch = true ->
    message_loop fuel ee ch adr = Some (out, a) ->
    exists us tail,
      forallb unit_ok us = true /\
      encode us ++ [0] = ch :: tail /\
      stored ee adr tail /\
      a = adr + Z.of_nat (length tail).
Proof.
  induction fuel as [|n IH]; intros ee ch adr out a Hch Hrun;
    rewrite message_loop_eq in Hrun;
    destruct (Z.eqb_spec ch 0) as [->|Hnz].
  1,3: injection Hrun as <- <-; exists [], []; cbn; repeat split; lia.
  - discriminate.
  - destruct (display_unit n ee ch adr) as [[out1 a1]|] eqn:Hunit;
      [|discriminate].
    destruct (message_loop n ee (eeprom_read_byte ee a1) (a1 + 1))
      as [[out2 a2]|] eqn:Hrec; [|discriminate].
    injection Hrun as <- <-.
    apply display_unit_reads in Hunit as (u & tail1 & Hu & Hcat1 & Hst1 & -> & _);
      [|exact Hch|exact Hnz].
    apply IH in Hrec as (us & tail2 & Hus & Hcat2 & Hst2 & ->);
      [|apply is_byte_spec, uint8_range].
    exists (u :: us),
      (tail1 ++ eeprom_read_byte ee (adr + Z.of_nat (length tail1)) :: tail2).
    cbn [forallb]. rewrite Hu, Hus. unfold encode in *. cbn [flat_map].
    rewrite <- app_assoc, Hcat1, Hcat2. cbn [app].
    repeat split.
    + apply stored_app. split; [exact Hst1|]. cbn [stored]. now split.
    + rewrite length_app. cbn [length]. lia.
Qed.

(** Whenever [DisplayMessage] returns, the EEPROM holds at [ee_adr] a
    mode byte, the encoding of a sequence of units and a zero byte, and
    the pointer returned is decided by the byte after that zero. *)
Lemma DisplayMessage_reads_a_message (fuel : nat) (adr : Z) (m : hacklace)
      (out : list dm_call) (m' : hacklace) (next : Z) :
  DisplayMessage fuel adr m = Some (out, m', next) ->
  exists us : list unit_,
    let terminator := adr + 1 + Z.of_nat (length (encode us)) in
    forallb unit_ok us = true /\
    stored (eeprom m) adr
           (eeprom_read_byte (eeprom m) adr :: encode us ++ [0]) /\
    next = if eeprom_read_byte (eeprom m) (terminator + 1) =? 0
           then messages else terminator + 1.
Proof.
  unfold DisplayMessage. cbn [SetMode set_scroll_speed eeprom].
  destruct (message_loop fuel (eeprom m) (eeprom_read_byte (eeprom m) (adr + 1))
                         (adr + 1 + 1)) as [[out1 a1]|] eqn:Hloop;
    [|discriminate].
  intros Hrun. injection Hrun as _ _ <-.
  apply message_loop_reads in Hloop as (us & tail & Hus & Hcat & Hst & ->);
    [|apply is_byte_spec, uint8_range].
  exists us. cbv zeta. split; [exact Hus|]. split.
  - cbn [stored]. split; [reflexivity|]. rewrite Hcat. cbn [stored]. now split.
  - assert (Hlen : length (encode us) = length tail).
    { apply (f_equal (@length Z)) in Hcat.
      rewrite length_app in Hcat. cbn [length] in Hcat. lia. }
    rewrite Hlen.
    replace (adr + 1 + Z.of_nat (length tail) + 1)
      with (adr + 1 + 1 + Z.of_nat (length tail)) by lia.
    reflexivity.
Qed.

(** ** One unit among its neighbours *)

Lemma spaced_cons (f : unit_ -> list dm_call) (u : unit_) (us : list unit_) :
  spaced f (u :: us) = f u ++ gap us ++ spaced f us.
Proof.
  destruct us as [|u' us]; cbn [spaced gap app].
  - now rewrite app_nil_r.
  - reflexivity.
Qed.

Lemma spaced_app (f : unit_ -> list dm_call) (pre : list unit_) (u : unit_)
      (post : list unit_) :
  spaced f (pre ++ u :: post) =
  spaced f pre ++ gap pre ++ f u ++ gap post ++ spaced f post.
Proof.
  induction pre as [|p pre IH].
  - cbn [app spaced gap]. apply spaced_cons.
  - cbn [app]. rewrite !spaced_cons, IH.
    destruct pre; cbn [app gap spaced]; now rewrite <- ?app_assoc.
Qed.

Lemma displays_unit (m : hacklace) (adr mode : Z) (pre : list unit_)
      (u : unit_) (post : list unit_) :
  forallb unit_ok pre = true -> unit_ok u = true ->
  forallb unit_ok post = true ->
  displays m adr mode pre u post (unit_calls u).
Proof.
  intros Hpre Hu Hpost fuel Hst Hfuel.
  assert (Hok : forallb unit_ok (pre ++ u :: post) = true).
  { rewrite forallb_app. cbn [forallb]. now rewrite Hpre, Hu, Hpost. }
  rewrite (DisplayMessage_encoded _ mode adr m fuel Hok Hst Hfuel).
  rewrite spaced_app. eauto.
Qed.

(** Apart from ['~~'], the calls made for a unit are those the data
    model of the specification gives. *)
Lemma unit_calls_spec (u : unit_) :
  u <> AnimRef 126 -> unit_calls u = spec_unit_calls u.
Proof.
  destruct u as [c|b|b|raw]; intros Hne; cbn [unit_calls spec_unit_calls];
    try reflexivity.
  - now destruct (b =? 94).
  - destruct (Z.eqb_spec b 126) as [->|_]; [contradiction | reflexivity].
Qed.

Lemma spaced_ext (f g : unit_ -> list dm_call) (us : list unit_) :
  Forall (fun u => f u = g u) us -> spaced f us = spaced g us.
Proof.
  induction 1 as [|u us Hu _ IH]; [reflexivity|].
  now rewrite !spaced_cons, Hu, IH.
Qed.

(** On a message without ['~~'], [DisplayMessage] makes the calls of the
    specification's data model: the decoded units in order, one blank
    column between neighbours, none before the first or after the
    last. *)
Lemma DisplayMessage_agrees_with_spec (us : list unit_) (mode adr : Z)
      (m : hacklace) (fuel : nat) :
  forallb unit_ok us = true ->
  Forall (fun u => u <> AnimRef 126) us ->
  stored (eeprom m) adr (mode :: encode us ++ [0]) ->
  (length (encode us) <= fuel)%nat ->
  exists m' next,
    DisplayMessage fuel adr m =
    Some (fst (SetMode mode m) ++ dmClearDisplay :: spaced spec_unit_calls us,
          m', next).
Proof.
  intros Hok Hnt Hst Hfuel.
  rewrite (DisplayMessage_encoded us mode adr m fuel Hok Hst Hfuel).
  rewrite (spaced_ext unit_calls spec_unit_calls us).
  - eauto.
  - eapply Forall_impl; [|exact Hnt]. apply unit_calls_spec.
Qed.

(** C1.  The literal ['~'] of the data model is not displayed: on the
    message body ['~~'] [DisplayMessage] sets the mode, clears the
    display and makes no further call, where the specification has the
    glyph of ['~']. *)
Theorem tilde_tilde_displays_nothing (mode adr : Z) (m : hacklace)
        (fuel : nat) :
  stored (eeprom m) adr [mode; 126; 126; 0] ->
  (2 <= fuel)%nat ->
  exists out m' next,
    DisplayMessage fuel adr m = Some (out, m', next) /\
    out = fst (SetMode mode m) ++ [dmClearDisplay] /\
    out <> fst (SetMode mode m) ++ dmClearDisplay ::
             spaced spec_unit_calls [AnimRef 126].
Proof.
  intros Hst Hfuel.
  rewrite (DisplayMessage_encoded [AnimRef 126] mode adr m fuel eq_refl Hst Hfuel).
  do 3 eexists. split; [reflexivity|]. split; [reflexivity|].
  cbn. discriminate.
Qed.

(** C2.  [DisplayMessage] at any address of any store.  On a message
    laid out there as mode byte, body and zero terminator it reaches the
    terminator and returns the address after it when the byte at that
    address, the mode byte of the next message, is not zero, and the
    base of the store when it is zero.  And it returns in no other way:
    a call that returns has read such a message and returns just that. *)
Theorem DisplayMessage_returns_next (adr : Z) (m : hacklace) :
  (forall (us : list unit_) (mode : Z) (fuel : nat),
      forallb unit_ok us = true ->
      stored (eeprom m) adr (mode :: encode us ++ [0]) ->
      (length (encode us) <= fuel)%nat ->
      let terminator := adr + 1 + Z.of_nat (length (encode us)) in
      eeprom_read_byte (eeprom m) terminator = 0 /\
      exists out m',
        DisplayMessage fuel adr m =
        Some (out, m',
              if eeprom_read_byte (eeprom m) (terminator + 1) =? 0
              then messages else terminator + 1)) /\
  (forall (fuel : nat) (out : list dm_call) (m' : hacklace) (next : Z),
      DisplayMessage fuel adr m = Some (out, m', next) ->
      exists us : list unit_,
        let terminator := adr + 1 + Z.of_nat (length (encode us)) in
        forallb unit_ok us = true /\
        stored (eeprom m) adr
               (eeprom_read_byte (eeprom m) adr :: encode us ++ [0]) /\
        next = if eeprom_read_byte (eeprom m) (terminator + 1) =? 0
               then messages else terminator + 1).
Proof.
  split.
  - intros us mode fuel Hok Hst Hfuel terminator.
    rewrite (DisplayMessage_encoded us mode adr m fuel Hok Hst Hfuel).
    replace (adr + Z.of_nat (length (encode us)) + 2) with (terminator + 1)
      by (subst terminator; lia).
    split; [|eauto].
    cbn [stored] in Hst. destruct Hst as [_ Hst].
    apply stored_app in Hst as [_ Hst]. cbn [stored] in Hst.
    exact (proj1 Hst).
  - intros fuel out m' next Hrun.
    exact (DisplayMessage_reads_a_message fuel adr m out m' next Hrun).
Qed.

(** C9.  ['~'] followed by a byte [b] other than ['~'] whose index
    [b - 'A'], taken as a byte, is not below [ANIMATION_COUNT]: no call
    is made for the unit, and the units after it are displayed as
    usual. *)
Theorem animation_index_out_of_range (m : hacklace) (adr mode b : Z)
        (pre post : list unit_) :
  forallb unit_ok pre = true ->
  forallb unit_ok post = true ->
  0 <= b < 256 ->
  b <> 126 ->
  ANIMATION_COUNT <= uint8 (b - 65) ->
  displays m adr mode pre (AnimRef b) post [].
Proof.
  intros Hpre Hpost Hb Hne Hidx.
  assert (Hu : unit_ok (AnimRef b) = true) by now apply is_byte_spec.
  pose proof (displays_unit m adr mode pre (AnimRef b) post Hpre Hu Hpost) as Hd.
  cbn [unit_calls] in Hd.
  destruct (Z.eqb_spec b 126) as [|_]; [contradiction|].
  destruct (Z.ltb_spec (uint8 (b - 65)) ANIMATION_COUNT); [lia | exact Hd].
Qed.

(** C10.  A zero byte ends the message only where a unit would start.
    Read after ['^'] it is displayed as character 63; read after ['~'] it
    is an animation index out of range (the animations being at most
    191) and nothing is displayed; read inside a direct-mode run it is
    written as a blank column like any raw byte.  Each time the units
    that follow are displayed as usual. *)
Theorem zero_inside_a_unit (m : hacklace) (adr mode : Z)
        (pre post : list unit_) :
  forallb unit_ok pre = true ->
  forallb unit_ok post = true ->
  ANIMATION_COUNT <= 191 ->
  displays m adr mode pre (Escaped 0) post [dmPrintChar 63] /\
  displays m adr mode pre (AnimRef 0) post [] /\
  (forall raw1 raw2 : list Z,
      unit_ok (DirectRun (raw1 ++ raw2)) = true ->
      displays m adr mode pre (DirectRun (raw1 ++ 0 :: raw2)) post
               (map dmPrintByte raw1 ++ dmPrintByte 0 :: map dmPrintByte raw2)).
Proof.
  intros Hpre Hpost Hcount. split; [|split].
  - exact (displays_unit m adr mode pre (Escaped 0) post Hpre eq_refl Hpost).
  - pose proof (displays_unit m adr mode pre (AnimRef 0) post Hpre eq_refl Hpost)
      as Hd.
    cbn [unit_calls Z.eqb] in Hd. change (uint8 (0 - 65)) with 191 in Hd.
    destruct (Z.ltb_spec 191 ANIMATION_COUNT); [lia | exact Hd].
  - intros raw1 raw2 Hraw.
    assert (Hu : unit_ok (DirectRun (raw1 ++ 0 :: raw2)) = true).
    { cbn [unit_ok] in *. rewrite forallb_app in *. cbn [forallb].
      apply andb_true_iff in Hraw as [-> ->]. reflexivity. }
    pose proof (displays_unit m adr mode pre _ post Hpre Hu Hpost) as Hd.
    cbn [unit_calls] in Hd. rewrite map_app in Hd. exact Hd.
Qed.

(** [DisplayMessage] changes [scroll_speed] and nothing else. *)
Lemma DisplayMessage_machine (fuel : nat) (adr : Z) (m : hacklace)
      (out : list dm_call) (m' : hacklace) (next : Z) :
  DisplayMessage fuel adr m = Some (out, m', next) ->
  m' = snd (SetMode (eeprom_read_byte (eeprom m) adr) m).
Proof.
  unfold DisplayMessage. cbn [SetMode set_scroll_speed eeprom snd].
  destruct (message_loop _ _ _ _) as [[out1 a1]|]; [|discriminate].
  intros Hrun. now injection Hrun as _ <- _.
Qed.

(** ** The push button *)

Ltac bitwise :=
  apply Z.bits_inj'; intros ?i ?Hi;
  repeat first [ rewrite Z.land_spec | rewrite Z.lor_spec
               | rewrite Z.lnot_spec by assumption | rewrite Z.bits_0 ];
  repeat match goal with
         | |- context [Z.testbit ?x ?i] => destruct (Z.testbit x i)
         end;
  reflexivity.

Lemma release_mask_press (p a : Z) : Z.land p (Z.lnot (Z.lor p a)) = 0.
Proof. bitwise. Qed.

Lemma release_mask_ack (l p a : Z) :
  Z.land (Z.lor l a) (Z.lnot (Z.lor p a)) = Z.land l (Z.lnot (Z.lor p a)).
Proof. bitwise. Qed.



Lemma uint8_release_mask_clears (b p a : Z) :
  Z.land (uint8 (Z.land b (Z.lnot (Z.lor p a)))) p = 0.
Proof.
  unfold uint8. change 256 with (2 ^ 8). rewrite <- Z.land_ones by lia.
  bitwise.
Qed.


Section Button.
Hypothesis codes : button_codes_ok.

Lemma release_code : PB_RELEASE = 0.
Proof. exact (proj1 codes). Qed.

Lemma press_byte : uint8 PB_PRESS = PB_PRESS.
Proof. apply uint8_small. pose proof codes as (_ & ? & _). lia. Qed.




Lemma longpress_nonzero : PB_LONGPRESS <> 0.
Proof.
  pose proof codes as (_ & _ & _ & _ & _ & Hlp & _).
  intros E. rewrite E in Hlp. now rewrite Z.land_0_l in Hlp.
Qed.






Lemma tick_button (t : Z * ack) (m : hacklace) :
  button (tick t m) = button (sample_button (pb_sample (fst t)) m) /\
  pb_timer (tick t m) = pb_timer (sample_button (pb_sample (fst t)) m).
Proof.
  unfold tick, TIMER0_COMPB_vect, sample_button.
  destruct m as [ee sp bt mp wp st v stm pt]; cbn.
  destruct (negb (stm =? 0)); cbn;
    repeat match goal with
           | |- context [if ?c then _ else _] => destruct c
           end; split; reflexivity.
Qed.

Lemma tick_step_fields (t : Z * ack) (m : hacklace) :
  button (tick_step t m) =
    match snd t with
    | no_ack => button (tick t m)
    | ack_after => uint8 (Z.lor (button (tick t m)) PB_ACK)
    | ack_across => uint8 (Z.lor (button m) PB_ACK)
    end /\
  pb_timer (tick_step t m) = pb_timer (tick t m).
Proof. unfold tick_step. destruct (snd t); split; reflexivity. Qed.

Lemma tick_press (t : Z * ack) (m : hacklace) :
  pressed t -> at_rest m ->
  button (tick t m) = PB_PRESS /\
  pb_timer (tick t m) = uint8 PB_LONGPRESS_DELAY.
Proof.
  intros Ht Hm. destruct (tick_button t m) as [-> ->].
  unfold sample_button, pressed, at_rest in *.
  destruct (Z.eqb_spec (pb_sample (fst t)) 0) as [|_]; [contradiction|].
  rewrite Hm. cbn. now rewrite press_byte.
Qed.






(** Whatever the machine, a tick that samples the button up leaves it
    at rest. *)
Lemma released_tick_at_rest (t : Z * ack) (m : hacklace) :
  released t -> at_rest (tick t m).
Proof.
  intros Ht. unfold at_rest. destruct (tick_button t m) as [-> _].
  unfold sample_button, released in *. rewrite Ht. cbn [Z.eqb].
  destruct (Z.eqb_spec (Z.land (button m) PB_PRESS) 0) as [E|_]; cbn.
  - exact E.
  - apply uint8_release_mask_clears.
Qed.


(** [button |= PB_ACK] keeps a button at rest at rest and a long press a
    long press. *)
Lemma uint8_lor_ack (b : Z) :
  uint8 (Z.lor b PB_ACK) = Z.lor (uint8 b) PB_ACK.
Proof.
  pose proof codes as (_ & _ & _ & Hack & _).
  unfold uint8. change 256 with (2 ^ 8). rewrite <- !Z.land_ones by lia.
  rewrite Z.land_lor_distr_l. f_equal.
  rewrite Z.land_ones by lia. change (2 ^ 8) with 256.
  now apply Z.mod_small.
Qed.

Lemma or_ack_at_rest (b : Z) :
  Z.land b PB_PRESS = 0 -> Z.land (uint8 (Z.lor b PB_ACK)) PB_PRESS = 0.
Proof.
  intros Hb. pose proof codes as (_ & _ & _ & _ & Ha & _).
  rewrite uint8_lor_ack, Z.land_lor_distr_l, Ha, Z.lor_0_r.
  unfold uint8. change 256 with (2 ^ 8). rewrite <- Z.land_ones by lia.
  rewrite <- Z.land_assoc, (Z.land_comm (Z.ones 8)), Z.land_assoc, Hb.
  apply Z.land_0_l.
Qed.






Lemma press_ack_not_longpress : Z.lor PB_PRESS PB_ACK <> PB_LONGPRESS.
Proof.
  pose proof codes as (_ & _ & _ & _ & _ & _ & Hx).
  intros E. rewrite <- E in Hx. apply Hx.
  pose proof (release_mask_ack PB_PRESS PB_PRESS PB_ACK) as Hm.
  rewrite release_mask_press in Hm. exact Hm.
Qed.



















End Button.

(** ** The serial protocol *)

(** C3.  From any state of the serial state machine and any value of
    the play and write cursors, one received byte 27 (ESC) leaves the
    machine in [IDLE] with both cursors at the base of the message store,
    and the logo glyph (129) is shown on a cleared display. *)
Theorem esc_resets_from_any_state (m : hacklace) :
  let r := USART0_RX_vect false 27 m in
  state (snd r) = IDLE /\
  msg_ptr (snd r) = messages /\
  ee_write_ptr (snd r) = messages /\
  fst r = [dmClearDisplay; dmPrintChar 129].
Proof. cbn. repeat split. Qed.

Lemma shift_accumulate (v d : Z) :
  uint8 (uint8 (Z.shiftl v 4) + d) = uint8 (v * 16 + d).
Proof.
  unfold uint8. rewrite Z.shiftl_mul_pow2 by lia.
  change (2 ^ 4) with 16. now rewrite Zplus_mod_idemp_l.
Qed.

Lemma hex_arithmetic (ch : Z) :
  0 <= ch < 256 ->
  let c := uint8 ((if 65 <=? ch then uint8 (ch - (65 - 57 - 1)) else ch) - 48) in
  match hex_digit ch with
  | Some d => c = d /\ 0 <= d <= 15
  | None => 15 < c
  end.
Proof.
  intros Hch. unfold hex_digit, uint8. cbv zeta.
  destruct (Z.leb_spec 65 ch); destruct (Z.leb_spec 48 ch);
    destruct (Z.leb_spec ch 63); destruct (Z.leb_spec ch 70);
    cbn [andb]; try lia.
  all: change (65 - 57 - 1) with 7.
  all: try (rewrite (Z.mod_small (ch - 7)) by lia).
  all: try (rewrite (Z.mod_small (ch - 7 - 48)) by lia; lia).
  all: try (rewrite (Z.mod_small (ch - 48)) by lia; lia).
  - replace (ch - 48) with (ch + 208 + (-1) * 256) by lia.
    rewrite Z.mod_add by lia. rewrite Z.mod_small by lia. lia.
Qed.

(** C4, amended.  In state [EE_HEX_CODE] a received byte other than 27
    is echoed to the display and then: a byte from ['0'..'9'] or
    ['A'..'F'], and likewise one of the six bytes [0x3A..0x3F] that lie
    between them, is shifted into the accumulator
    ([val := (val * 16 + digit) mod 256]) with the state, the store and
    the write cursor unchanged; every other byte ends the literal: the
    accumulator is written at the write cursor, the cursor advances by
    one, the state is [EE_NORMAL], and nothing else is done with the
    byte. *)
Theorem hex_code_step (m : hacklace) (ch : Z) :
  state m = EE_HEX_CODE ->
  0 <= ch < 256 ->
  ch <> 27 ->
  let r := USART0_RX_vect false ch m in
  fst r = [dmClearDisplay; dmPrintChar ch] /\
  match hex_digit ch with
  | Some d =>
      snd r = set_val (uint8 (val m * 16 + d)) m
  | None =>
      snd r = set_state EE_NORMAL (ee_append (val m) m)
  end.
Proof.
  intros Hst Hch H27 r. subst r. unfold USART0_RX_vect.
  rewrite (uint8_small ch Hch).
  destruct (Z.eqb_spec ch 27) as [|_]; [contradiction|].
  unfold rx_switch. rewrite Hst. cbn [Z.eqb Pos.eqb Z.leb Z.compare Pos.compare
    Pos.compare_cont EE_HEX_CODE EE_NORMAL IDLE AUTH RESET DISP_SET_MODE
    DISP_CHAR EE_SPECIAL_CHAR].
  pose proof (hex_arithmetic ch Hch) as Hx. cbv zeta in Hx.
  destruct (hex_digit ch) as [d|].
  - destruct Hx as [Hc Hd]. rewrite Hc.
    destruct (Z.ltb_spec 15 d); [lia|].
    cbn [fst snd app]. split; [reflexivity|].
    now rewrite shift_accumulate.
  - destruct (Z.ltb_spec 15
      (uint8 ((if 65 <=? ch then uint8 (ch - (65 - 57 - 1)) else ch) - 48)));
      [|lia].
    cbn [fst snd app]. split; reflexivity.
Qed.

(** C5, amended.  From [IDLE], the bytes ['H' 'L' '$' '4' '1' ' ']
    append exactly one byte to the store, [0x41]; the space ends the hex
    literal and is used up by doing so: the write cursor has advanced by
    one, every other cell of the store is as before, and the machine is
    in [EE_NORMAL]. *)
Theorem hex_literal_then_space (m : hacklace) :
  state m = IDLE ->
  let m' := snd (receive [72; 76; 36; 52; 49; 32] m) in
  eeprom m' = eeprom_write_byte (eeprom m) (ee_write_ptr m) 65 /\
  ee_write_ptr m' = ee_write_ptr m + 1 /\
  state m' = EE_NORMAL.
Proof.
  intros Hst. destruct m as [ee sp bt mp wp st v stm pt].
  cbn [state] in Hst. subst st. cbn. repeat split.
Qed.

(** C7, amended.  A received byte other than 27 is echoed (clear
    display, then the glyph of the byte) exactly in the states
    [EE_NORMAL], [EE_SPECIAL_CHAR] and [EE_HEX_CODE], where the echo is
    all that reaches the display and the state is processed as usual.  In
    [DISP_SET_MODE] the display is cleared and the mode set, without a
    glyph; in [DISP_CHAR] the byte is drawn with a blank column after it
    and without a clear, or the display is cleared on CR and LF. *)
Theorem echo_in_ee_states_only (m : hacklace) (ch : Z) :
  0 <= ch < 256 ->
  ch <> 27 ->
  let r := USART0_RX_vect false ch m in
  (state m = EE_NORMAL \/ state m = EE_SPECIAL_CHAR \/ state m = EE_HEX_CODE ->
   fst r = [dmClearDisplay; dmPrintChar ch] /\ snd r = snd (rx_switch ch m)) /\
  (state m = DISP_SET_MODE ->
   fst r = dmClearDisplay :: fst (SetMode ch m)) /\
  (state m = DISP_CHAR ->
   fst r = if (ch =? 13) || (ch =? 10) then [dmClearDisplay]
           else [dmPrintChar ch; dmPrintByte 0]).
Proof.
  intros Hch H27 r. subst r. unfold USART0_RX_vect.
  rewrite (uint8_small ch Hch).
  destruct (Z.eqb_spec ch 27) as [|_]; [contradiction|].
  split; [|split].
  - intros [Hst|[Hst|Hst]]; unfold rx_switch; rewrite Hst; cbn.
    + destruct (ch =? 94), (ch =? 36), ((ch =? 13) || (ch =? 10)), (32 <=? ch);
        split; reflexivity.
    + split; reflexivity.
    + match goal with |- context [15 <? ?c] => destruct (15 <? c) end;
        split; reflexivity.
  - intros Hst. unfold rx_switch. rewrite Hst. reflexivity.
  - intros Hst. unfold rx_switch. rewrite Hst. cbn.
    destruct ((ch =? 13) || (ch =? 10)); reflexivity.
Qed.

(** C8, amended.  A received byte 27 is handled as in state [RESET]
    while that same byte is processed, whatever the state was; the
    machine does not wait in [RESET] for a further byte.  When the
    handler returns, both cursors are at the base of the store, the
    display shows the logo glyph on a cleared display, the store is
    untouched and the state is [IDLE].  A machine found in [RESET] does
    the same on any byte. *)
Theorem esc_handled_as_reset (m : hacklace) (udr : Z) :
  uint8 udr = 27 \/ state m = RESET ->
  let r := USART0_RX_vect false udr m in
  state (snd r) = IDLE /\
  msg_ptr (snd r) = messages /\
  ee_write_ptr (snd r) = messages /\
  eeprom (snd r) = eeprom m /\
  fst r = [dmClearDisplay; dmPrintChar 129].
Proof.
  intros Hcase r. subst r. unfold USART0_RX_vect.
  destruct Hcase as [H27|Hst].
  - rewrite H27. cbn. repeat split.
  - destruct (uint8 udr =? 27).
    + cbn. repeat split.
    + unfold rx_switch. rewrite Hst. cbn. repeat split.
Qed.

End Properties.

(** * Further properties *)

Section MoreProperties.
Context `{Headers}.

(** ** SetMode *)

(** X1.  [SetMode] takes the mode byte apart into its four fields: bit
    3 chooses the increment 5 over 1, bit 7 the bidirectional scrolling,
    bits 6..4 index the delay table and bits 2..0 the speed table. *)
Theorem SetMode_fields (bidirectional step5 : bool) (dly spd : Z)
        (m : hacklace) :
  0 <= dly < 8 -> 0 <= spd < 8 ->
  SetMode (mode_byte bidirectional dly step5 spd) m =
  ([dmSetScrolling (if step5 then 5 else 1)
                   (if bidirectional then BIDIRECTIONAL else FORWARD)
                   (uint8 (dly_conv dly))],
   set_scroll_speed (uint8 (spd_conv spd)) m).
Proof.
  intros Hd Hs.
  assert (Ed : dly = 0 \/ dly = 1 \/ dly = 2 \/ dly = 3 \/
               dly = 4 \/ dly = 5 \/ dly = 6 \/ dly = 7) by lia.
  assert (Es : spd = 0 \/ spd = 1 \/ spd = 2 \/ spd = 3 \/
               spd = 4 \/ spd = 5 \/ spd = 6 \/ spd = 7) by lia.
  destruct bidirectional, step5;
    repeat (destruct Ed as [-> | Ed]); try subst dly;
    repeat (destruct Es as [-> | Es]); try subst spd;
    reflexivity.
Qed.

(** ** DisplayMessage *)

(** X2.  The message player on a stored message: after setting the mode
    and clearing the display, the units of the body are displayed in
    order, neighbours one blank column apart, and the pointer returned
    is the address after the terminator unless the byte there is zero. *)
Theorem DisplayMessage_displays_units (us : list unit_) (mode adr : Z)
        (m : hacklace) (fuel : nat) :
  forallb unit_ok us = true ->
  stored (eeprom m) adr (mode :: encode us ++ [0]) ->
  (length (encode us) <= fuel)%nat ->
  DisplayMessage fuel adr m =
  Some (fst (SetMode mode m) ++ dmClearDisplay :: spaced unit_calls us,
        set_scroll_speed (uint8 (spd_conv (Z.land mode 7))) m,
        if eeprom_read_byte (eeprom m)
             (adr + Z.of_nat (length (encode us)) + 2) =? 0
        then messages else adr + Z.of_nat (length (encode us)) + 2).
Proof.
  intros Hok Hst Hfuel.
  exact (DisplayMessage_encoded us mode adr m fuel Hok Hst Hfuel).
Qed.

(** ** The serial protocol on sequences of bytes *)

Lemma receive_app (xs ys : list Z) (m : hacklace) :
  receive (xs ++ ys) m =
  (fst (receive xs m) ++ fst (receive ys (snd (receive xs m))),
   snd (receive ys (snd (receive xs m)))).
Proof.
  revert m. induction xs as [|x xs IH]; intros m.
  - cbn [app receive fst snd]. now destruct (receive ys m).
  - cbn [app receive]. destruct (USART0_RX_vect false x m) as [o1 m1].
    rewrite IH. destruct (receive xs m1) as [o2 m2]. cbn [fst snd].
    now rewrite app_assoc.
Qed.

Lemma receive_cons (x : Z) (xs : list Z) (m : hacklace) :
  receive (x :: xs) m =
  (fst (USART0_RX_vect false x m)
     ++ fst (receive xs (snd (USART0_RX_vect false x m))),
   snd (receive xs (snd (USART0_RX_vect false x m)))).
Proof.
  cbn [receive]. destruct (USART0_RX_vect false x m) as [o1 m1].
  cbn [fst snd]. now destruct (receive xs m1).
Qed.

Lemma typed_spec (c : Z) :
  typed c = true <-> 32 <= c < 256 /\ c <> 94 /\ c <> 36.
Proof.
  unfold typed. rewrite !andb_true_iff, !negb_true_iff, Z.leb_le, Z.ltb_lt,
    !Z.eqb_neq. tauto.
Qed.

Lemma rx_ee_normal_typed (c : Z) (m : hacklace) :
  state m = EE_NORMAL -> typed c = true ->
  USART0_RX_vect false c m = ([dmClearDisplay; dmPrintChar c], ee_append c m).
Proof.
  intros Hst Hc. apply typed_spec in Hc as (Hr & H94 & H36).
  unfold USART0_RX_vect. rewrite (uint8_small c) by lia.
  destruct (Z.eqb_spec c 27) as [|_]; [lia|].
  unfold rx_switch. rewrite Hst. cbn.
  destruct (Z.eqb_spec c 94) as [|_]; [contradiction|].
  destruct (Z.eqb_spec c 36) as [|_]; [contradiction|].
  destruct (Z.eqb_spec c 13) as [|_]; [lia|].
  destruct (Z.eqb_spec c 10) as [|_]; [lia|].
  destruct (Z.leb_spec 32 c); [reflexivity | lia].
Qed.

Lemma rx_ee_normal_cr (m : hacklace) :
  state m = EE_NORMAL ->
  USART0_RX_vect false 13 m = ([dmClearDisplay; dmPrintChar 13], ee_append 0 m).
Proof.
  intros Hst. unfold USART0_RX_vect, rx_switch. cbn. rewrite Hst. reflexivity.
Qed.

Lemma receive_typed_text (text : list Z) :
  forall m : hacklace,
    state m = EE_NORMAL ->
    forallb typed text = true ->
    let r := receive text m in
    state (snd r) = EE_NORMAL /\
    ee_write_ptr (snd r) = ee_write_ptr m + Z.of_nat (length text) /\
    msg_ptr (snd r) = msg_ptr m /\
    stored (eeprom (snd r)) (ee_write_ptr m) text /\
    (forall a : Z,
        a < ee_write_ptr m \/ ee_write_ptr m + Z.of_nat (length text) <= a ->
        eeprom (snd r) a = eeprom m a) /\
    fst r = flat_map (fun c => [dmClearDisplay; dmPrintChar c]) text.
Proof.
  induction text as [|c text IH]; intros m Hst Hty.
  - cbn. repeat split; lia.
  - cbn [forallb] in Hty. apply andb_true_iff in Hty as [Hc Hty].
    cbv zeta. rewrite receive_cons, (rx_ee_normal_typed c m Hst Hc).
    cbn [fst snd].
    destruct (IH (ee_append c m) Hst Hty) as (H1 & H2 & H3 & H4 & H5 & H6).
    cbn [ee_append ee_write_ptr msg_ptr eeprom] in H2, H3, H4, H5.
    cbn [length flat_map stored]. rewrite Nat2Z.inj_succ.
    repeat split.
    + exact H1.
    + lia.
    + exact H3.
    + unfold eeprom_read_byte. rewrite H5 by lia.
      unfold eeprom_write_byte. rewrite Z.eqb_refl.
      apply typed_spec in Hc. rewrite !uint8_small; try apply uint8_range; lia.
    + exact H4.
    + intros a Ha. rewrite H5 by lia. unfold eeprom_write_byte.
      destruct (Z.eqb_spec a (ee_write_ptr m)); [lia | reflexivity].
    + rewrite H6. reflexivity.
Qed.

(** X5.  Text typed in [EE_NORMAL]: bytes from 0x20 on other than ['^']
    and ['$'] are appended to the store as they come, one cell each from
    the write cursor on; no other cell changes, the play cursor stays,
    each byte is echoed on a cleared display, and the state remains
    [EE_NORMAL]. *)
Theorem typed_text_is_appended (text : list Z) (m : hacklace) :
  state m = EE_NORMAL ->
  forallb typed text = true ->
  let r := receive text m in
  state (snd r) = EE_NORMAL /\
  ee_write_ptr (snd r) = ee_write_ptr m + Z.of_nat (length text) /\
  msg_ptr (snd r) = msg_ptr m /\
  stored (eeprom (snd r)) (ee_write_ptr m) text /\
  (forall a : Z,
      a < ee_write_ptr m \/ ee_write_ptr m + Z.of_nat (length text) <= a ->
      eeprom (snd r) a = eeprom m a) /\
  fst r = flat_map (fun c => [dmClearDisplay; dmPrintChar c]) text.
Proof. exact (receive_typed_text text m). Qed.

Lemma stored_write_above (f : Z -> Z) (bs : list Z) (adr a v : Z) :
  adr + Z.of_nat (length bs) <= a ->
  stored f adr bs -> stored (eeprom_write_byte f a v) adr bs.
Proof.
  revert adr. induction bs as [|b bs IH]; intros adr Ha Hs; [exact I|].
  cbn [stored length] in *. destruct Hs as [Hb Hs]. split.
  - unfold eeprom_read_byte, eeprom_write_byte in *.
    destruct (Z.eqb_spec adr a); [lia | exact Hb].
  - apply IH; [lia | exact Hs].
Qed.

Lemma encode_literals (text : list Z) : encode (map Literal text) = text.
Proof.
  induction text as [|c text IH]; [reflexivity|].
  unfold encode in *. cbn [map flat_map encode_unit app]. now rewrite IH.
Qed.

Lemma plain_spec (c : Z) :
  plain c = true <-> typed c = true /\ c <> 126 /\ c <> 255.
Proof.
  unfold plain. rewrite !andb_true_iff, !negb_true_iff, !Z.eqb_neq. tauto.
Qed.

Lemma literals_ok (text : list Z) :
  forallb plain text = true -> forallb unit_ok (map Literal text) = true.
Proof.
  induction text as [|c text IH]; [reflexivity|].
  cbn [forallb map]. intros Hp. apply andb_true_iff in Hp as [Hc Hp].
  rewrite (IH Hp), andb_true_r.
  apply plain_spec in Hc as (Hc & H126 & H255).
  apply typed_spec in Hc as (Hr & H94 & _).
  cbn [unit_ok]. unfold is_byte.
  destruct (Z.leb_spec 0 c); [|lia]. destruct (Z.ltb_spec c 256); [|lia].
  destruct (Z.eqb_spec c 0); [lia|]. destruct (Z.eqb_spec c 126); [lia|].
  destruct (Z.eqb_spec c 255); [lia|]. destruct (Z.eqb_spec c 94); [lia|].
  reflexivity.
Qed.

Lemma plain_typed (text : list Z) :
  forallb plain text = true -> forallb typed text = true.
Proof.
  induction text as [|c text IH]; [reflexivity|].
  cbn [forallb]. intros Hp. apply andb_true_iff in Hp as [Hc Hp].
  apply plain_spec in Hc as (Hc & _). now rewrite Hc, IH.
Qed.

Lemma receive_esc_H_L (m : hacklace) :
  snd (receive [27; 72; 76] m) =
  set_state EE_NORMAL (set_ee_write_ptr messages (set_msg_ptr messages m)).
Proof. destruct m. reflexivity. Qed.

(** The store after a message has been sent over the serial line: ESC,
    ['H'], ['L'], a mode byte, plain text and two line ends. *)
Lemma uploaded_message (m : hacklace) (mode : Z) (text : list Z) :
  typed mode = true ->
  forallb plain text = true ->
  let m1 := snd (receive ([27; 72; 76; mode] ++ text ++ [13; 13]) m) in
  msg_ptr m1 = messages /\
  state m1 = EE_NORMAL /\
  ee_write_ptr m1 = messages + Z.of_nat (length text) + 3 /\
  stored (eeprom m1) messages ((mode :: text ++ [0]) ++ [0]).
Proof.
  intros Hmode Htext m1.
  assert (Hty : forallb typed (mode :: text) = true)
    by (cbn [forallb]; now rewrite Hmode, plain_typed).
  subst m1.
  change ([27; 72; 76; mode] ++ text ++ [13; 13])
    with ([27; 72; 76] ++ (mode :: text) ++ [13; 13]).
  rewrite receive_app. cbn [snd]. rewrite receive_esc_H_L.
  set (m0 := set_state EE_NORMAL
               (set_ee_write_ptr messages (set_msg_ptr messages m))).
  rewrite receive_app. cbn [snd].
  destruct (receive_typed_text (mode :: text) m0 eq_refl Hty)
    as (H1 & H2 & H3 & H4 & _).
  set (m2 := snd (receive (mode :: text) m0)) in *.
  rewrite receive_cons. cbn [snd]. rewrite (rx_ee_normal_cr m2 H1). cbn [snd].
  rewrite receive_cons. cbn [snd receive].
  rewrite (rx_ee_normal_cr (ee_append 0 m2) H1). cbn [snd].
  cbn [ee_append msg_ptr state ee_write_ptr eeprom].
  cbn [length] in H2. rewrite Nat2Z.inj_succ in H2.
  change (ee_write_ptr m0) with messages in *.
  change (msg_ptr m0) with messages in *.
  split; [exact H3|]. split; [exact H1|]. split; [lia|].
  replace ((mode :: text ++ [0]) ++ [0]) with ((mode :: text) ++ [0; 0])
    by (cbn [app]; now rewrite <- app_assoc).
  apply stored_app. split.
  - apply stored_write_above; [cbn [length]; lia|].
    apply stored_write_above; [cbn [length]; lia | exact H4].
  - cbn [stored length]. unfold eeprom_read_byte, eeprom_write_byte.
    rewrite H2, Nat2Z.inj_succ. repeat split.
    + destruct (Z.eqb_spec (messages + Z.succ (Z.of_nat (length text)))
                           (messages + Z.succ (Z.of_nat (length text)) + 1));
        [lia|].
      now rewrite Z.eqb_refl.
    + now rewrite Z.eqb_refl.
Qed.

(** X4.  Send and play.  After ESC, ['H'], ['L'], a mode byte that
    [EE_NORMAL] stores as it comes (from 0x20 on, neither ['^'] nor
    ['$']; any other mode byte has to be sent as a hex literal), a plain
    text and two line ends (the second one closes the play list),
    [DisplayMessage] at the play cursor sets that mode, displays the
    text, one blank column between its characters, and returns the base
    of the store. *)
Theorem upload_then_play (m : hacklace) (mode : Z) (text : list Z) :
  typed mode = true ->
  forallb plain text = true ->
  let m1 := snd (receive ([27; 72; 76; mode] ++ text ++ [13; 13]) m) in
  forall fuel : nat,
    (length text <= fuel)%nat ->
    DisplayMessage fuel (msg_ptr m1) m1 =
    Some (fst (SetMode mode m1) ++ dmClearDisplay ::
            spaced unit_calls (map Literal text),
          snd (SetMode mode m1), messages).
Proof.
  intros Hmode Htext m1 fuel Hfuel.
  destruct (uploaded_message m mode text Hmode Htext) as (Hp & _ & _ & Hst).
  fold m1 in Hp, Hst. rewrite Hp.
  apply stored_app in Hst as [Hmsg Hend].
  rewrite <- (encode_literals text) in Hmsg, Hend, Hfuel.
  rewrite (DisplayMessage_encoded (map Literal text) mode messages m1 fuel
             (literals_ok text Htext) Hmsg Hfuel).
  cbn [length] in Hend. rewrite length_app in Hend. cbn [length stored] in Hend.
  destruct Hend as [Hend _].
  replace (messages + Z.of_nat (length (encode (map Literal text))) + 2)
    with (messages + Z.of_nat (S (length (encode (map Literal text)) + 1)))
    by lia.
  rewrite Hend. reflexivity.
Qed.

(** ** Hex literals *)

Lemma hex_digit_some (c d : Z) :
  hex_digit c = Some d -> 0 <= c < 256 /\ c <> 27 /\ 0 <= d <= 15.
Proof.
  unfold hex_digit.
  destruct (Z.leb_spec 48 c), (Z.leb_spec c 63), (Z.leb_spec 65 c),
    (Z.leb_spec c 70); cbn [andb]; intros E; inversion E; lia.
Qed.

Lemma rx_hex_code (ch : Z) (m : hacklace) :
  state m = EE_HEX_CODE -> 0 <= ch < 256 -> ch <> 27 ->
  snd (USART0_RX_vect false ch m) =
  match hex_digit ch with
  | Some d => set_val (uint8 (val m * 16 + d)) m
  | None => set_state EE_NORMAL (ee_append (val m) m)
  end.
Proof.
  intros Hst Hch H27. unfold USART0_RX_vect.
  rewrite (uint8_small ch Hch).
  destruct (Z.eqb_spec ch 27) as [|_]; [contradiction|].
  unfold rx_switch. rewrite Hst.
  cbn [Z.eqb Pos.eqb Z.leb Z.compare Pos.compare Pos.compare_cont
       EE_HEX_CODE EE_NORMAL IDLE AUTH RESET DISP_SET_MODE DISP_CHAR
       EE_SPECIAL_CHAR].
  pose proof (hex_arithmetic ch Hch) as Hx. cbv zeta in Hx.
  destruct (hex_digit ch) as [d|].
  - destruct Hx as [Hc Hd]. rewrite Hc.
    destruct (Z.ltb_spec 15 d); [lia|].
    cbn [snd]. now rewrite shift_accumulate.
  - destruct (Z.ltb_spec 15
      (uint8 ((if 65 <=? ch then uint8 (ch - (65 - 57 - 1)) else ch) - 48)));
      [reflexivity | lia].
Qed.

Lemma uint8_hex_step (acc c : Z) :
  uint8 (hex_step (uint8 acc) c) = uint8 (hex_step acc c).
Proof.
  unfold hex_step, uint8.
  rewrite Z.add_mod by lia. rewrite Z.mul_mod_idemp_l by lia.
  now rewrite <- Z.add_mod by lia.
Qed.

Lemma fold_hex_step_uint8 (digits : list Z) :
  forall a : Z,
    uint8 (fold_left hex_step digits (uint8 a))
    = uint8 (fold_left hex_step digits a).
Proof.
  induction digits as [|x xs IH]; intros a.
  - cbn. unfold uint8. now rewrite Z.mod_mod by lia.
  - cbn [fold_left].
    rewrite <- (IH (hex_step (uint8 a) x)), uint8_hex_step. apply IH.
Qed.

Lemma receive_hex_digits (digits : list Z) :
  forall m : hacklace,
    state m = EE_HEX_CODE ->
    Forall (fun c => hex_digit c <> None) digits ->
    0 <= val m < 256 ->
    let m' := snd (receive digits m) in
    state m' = EE_HEX_CODE /\ eeprom m' = eeprom m /\
    ee_write_ptr m' = ee_write_ptr m /\ msg_ptr m' = msg_ptr m /\
    val m' = uint8 (fold_left hex_step digits (val m)).
Proof.
  induction digits as [|c digits IH]; intros m Hst Hd Hv.
  - cbn [receive snd fold_left].
    refine (conj Hst (conj eq_refl (conj eq_refl (conj eq_refl _)))).
    now rewrite uint8_small.
  - inversion Hd as [|? ? Hc Hds]; subst.
    destruct (hex_digit c) as [d|] eqn:Ec; [|contradiction].
    destruct (hex_digit_some c d Ec) as (Hr & H27 & Hdr).
    cbv zeta. rewrite receive_cons. cbn [snd].
    rewrite (rx_hex_code c m Hst Hr H27), Ec.
    destruct (IH (set_val (uint8 (val m * 16 + d)) m) Hst Hds
                 (uint8_range _)) as (H1 & H2 & H3 & H4 & H5).
    repeat split; try assumption.
    rewrite H5. cbn [val set_val fold_left].
    replace (val m * 16 + d) with (hex_step (val m) c)
      by (unfold hex_step; now rewrite Ec).
    apply fold_hex_step_uint8.
Qed.

Lemma receive_hex_literal (digits : list Z) (term : Z) (m : hacklace) :
  state m = EE_NORMAL ->
  Forall (fun c => hex_digit c <> None) digits ->
  hex_digit term = None -> 0 <= term < 256 -> term <> 27 ->
  let m' := snd (receive (36 :: digits ++ [term]) m) in
  eeprom m' =
    eeprom_write_byte (eeprom m) (ee_write_ptr m) (uint8 (hex_number digits)) /\
  ee_write_ptr m' = ee_write_ptr m + 1 /\
  msg_ptr m' = msg_ptr m /\
  state m' = EE_NORMAL.
Proof.
  intros Hst Hd Ht Hr H27. cbv zeta. rewrite receive_cons. cbn [snd].
  assert (E : snd (USART0_RX_vect false 36 m)
              = set_state EE_HEX_CODE (set_val 0 m)).
  { unfold USART0_RX_vect, rx_switch. cbn. rewrite Hst. reflexivity. }
  rewrite E, receive_app. cbn [snd].
  destruct (receive_hex_digits digits (set_state EE_HEX_CODE (set_val 0 m))
              eq_refl Hd ltac:(cbn; lia)) as (H1 & H2 & H3 & H4 & H5).
  set (m1 := snd (receive digits (set_state EE_HEX_CODE (set_val 0 m)))) in *.
  rewrite receive_cons. cbn [snd receive].
  rewrite (rx_hex_code term m1 H1 Hr H27), Ht.
  cbn [set_state ee_append eeprom ee_write_ptr msg_ptr state].
  rewrite H2, H3, H4, H5. cbn [set_state set_val eeprom ee_write_ptr msg_ptr val].
  unfold hex_number. repeat split.
Qed.

(** X6.  A hex literal typed in [EE_NORMAL]: ['$'], any number of hex
    digit characters and one byte that is none appends exactly one byte
    to the store, the number spelled by the digits modulo 256 (so only
    the last two digits count, and no digit at all gives 0); the byte
    that ends the literal is not stored, and the state is [EE_NORMAL]
    again. *)
Theorem hex_literal_appends_one_byte (digits : list Z) (term : Z)
        (m : hacklace) :
  state m = EE_NORMAL ->
  Forall (fun c => hex_digit c <> None) digits ->
  hex_digit term = None -> 0 <= term < 256 -> term <> 27 ->
  let m' := snd (receive (36 :: digits ++ [term]) m) in
  eeprom m' =
    eeprom_write_byte (eeprom m) (ee_write_ptr m) (uint8 (hex_number digits)) /\
  ee_write_ptr m' = ee_write_ptr m + 1 /\
  msg_ptr m' = msg_ptr m /\
  state m' = EE_NORMAL.
Proof. exact (receive_hex_literal digits term m). Qed.

Lemma hex_digit_hex_char (d : Z) :
  0 <= d < 16 -> hex_digit (hex_char d) = Some d.
Proof.
  intros Hd. unfold hex_char, hex_digit.
  destruct (Z.ltb_spec d 10).
  - destruct (Z.leb_spec 48 (48 + d)); [|lia].
    destruct (Z.leb_spec (48 + d) 63); [|lia].
    cbn [andb]. f_equal. lia.
  - destruct (Z.leb_spec 48 (55 + d)); [|lia].
    destruct (Z.leb_spec (55 + d) 63); [lia|].
    destruct (Z.leb_spec 65 (55 + d)); [|lia].
    destruct (Z.leb_spec (55 + d) 70); [|lia].
    cbn [andb]. f_equal. lia.
Qed.

(** X7.  Every byte can be entered as a hex literal: for a byte [v],
    ['$'], the two upper-case hex digits of [v] and a space append [v]
    itself to the store. *)
Theorem hex_literal_round_trip (v : Z) (m : hacklace) :
  0 <= v < 256 ->
  state m = EE_NORMAL ->
  let m' := snd (receive [36; hex_char (v / 16); hex_char (v mod 16); 32] m) in
  eeprom m' = eeprom_write_byte (eeprom m) (ee_write_ptr m) v /\
  ee_write_ptr m' = ee_write_ptr m + 1 /\
  state m' = EE_NORMAL.
Proof.
  intros Hv Hst.
  assert (Hhi : 0 <= v / 16 < 16)
    by (split; [apply Z.div_pos; lia | apply Z.div_lt_upper_bound; lia]).
  assert (Hlo : 0 <= v mod 16 < 16) by (apply Z.mod_pos_bound; lia).
  assert (Hd : Forall (fun c => hex_digit c <> None)
                      [hex_char (v / 16); hex_char (v mod 16)]).
  { repeat constructor; rewrite hex_digit_hex_char by assumption;
      discriminate. }
  destruct (receive_hex_literal _ 32 m Hst Hd eq_refl ltac:(lia) ltac:(lia))
    as (H1 & H2 & _ & H4).
  cbn [app] in H1, H2, H4. cbv zeta.
  rewrite H1, H2, H4. repeat split.
  unfold hex_number. cbn [fold_left]. unfold hex_step.
  rewrite !hex_digit_hex_char by assumption.
  replace ((0 * 16 + v / 16) * 16 + v mod 16) with v
    by (rewrite (Z.div_mod v 16) at 1 by lia; lia).
  now rewrite (uint8_small v Hv).
Qed.

(** ** What the serial protocol never does *)

Ltac rx_by_state m :=
  unfold USART0_RX_vect, rx_switch;
  destruct m as [ee sp bt mp wp st v stm pt];
  cbn [state set_state eeprom ee_write_ptr msg_ptr] in *.

Lemma snd_echo (out : list dm_call) (x : list dm_call * hacklace) :
  snd (let (o, m1) := x in (out ++ o, m1)) = snd x.
Proof. now destruct x. Qed.

Lemma rx_outside_ee (udr : Z) (m : hacklace) :
  is_ee_state (state m) = false ->
  uint8 udr <> 76 ->
  let m' := snd (USART0_RX_vect false udr m) in
  is_ee_state (state m') = false /\
  eeprom m' = eeprom m /\
  (ee_write_ptr m' = ee_write_ptr m \/ ee_write_ptr m' = messages).
Proof.
  intros Hee HL. rx_by_state m.
  destruct (Z.eqb_spec (uint8 udr) 27) as [_|_]; [cbn; auto|].
  rewrite snd_echo. cbn [state].
  destruct (Z.eqb_spec st IDLE) as [->|N0];
    [destruct (uint8 udr =? AUTH1_CHAR); cbn; auto|].
  destruct (Z.eqb_spec st AUTH) as [->|N1].
  { change EE_AUTH2_CHAR with 76.
    destruct (Z.eqb_spec (uint8 udr) 76) as [|_]; [contradiction|].
    destruct (uint8 udr =? DISP_AUTH2_CHAR); cbn; auto. }
  destruct (Z.eqb_spec st RESET) as [->|N2]; [cbn; auto|].
  destruct (Z.eqb_spec st DISP_SET_MODE) as [->|N3]; [cbn; auto|].
  destruct (Z.eqb_spec st DISP_CHAR) as [->|N4];
    [destruct ((uint8 udr =? 13) || (uint8 udr =? 10)); cbn; auto|].
  unfold is_ee_state in Hee.
  destruct (Z.eqb_spec st EE_NORMAL) as [|N5]; [discriminate|].
  destruct (Z.eqb_spec st EE_SPECIAL_CHAR) as [|N6]; [discriminate|].
  destruct (Z.eqb_spec st EE_HEX_CODE) as [|N7]; [discriminate|].
  cbn [snd state eeprom ee_write_ptr]. unfold is_ee_state.
  destruct (Z.eqb_spec st EE_NORMAL); [contradiction|].
  destruct (Z.eqb_spec st EE_SPECIAL_CHAR); [contradiction|].
  destruct (Z.eqb_spec st EE_HEX_CODE); [contradiction|].
  auto.
Qed.

(** X8.  No way into the store without ['L']: from a state other than
    the three store-writing ones, a sequence of bytes without ['L']
    leaves the store as it was and the machine outside those states; the
    write cursor is where it was or, after an ESC, at the base. *)
Theorem no_store_write_without_L (bytes : list Z) :
  forall m : hacklace,
    is_ee_state (state m) = false ->
    Forall (fun b => uint8 b <> 76) bytes ->
    let m' := snd (receive bytes m) in
    is_ee_state (state m') = false /\
    eeprom m' = eeprom m /\
    (ee_write_ptr m' = ee_write_ptr m \/ ee_write_ptr m' = messages).
Proof.
  induction bytes as [|b bytes IH]; intros m Hee Hb.
  - cbn. auto.
  - inversion Hb as [|? ? HL Hbs]; subst.
    cbv zeta. rewrite receive_cons. cbn [snd].
    destruct (rx_outside_ee b m Hee HL) as (H1 & H2 & H3).
    destruct (IH _ H1 Hbs) as (H4 & H5 & H6).
    split; [exact H4|]. split; [congruence|].
    destruct H6 as [H6|H6]; [|now right].
    rewrite H6. exact H3.
Qed.

Lemma rx_disp_char (udr : Z) (m : hacklace) :
  state m = DISP_CHAR -> uint8 udr <> 27 ->
  USART0_RX_vect false udr m =
  (if (uint8 udr =? 13) || (uint8 udr =? 10) then [dmClearDisplay]
   else [dmPrintChar (uint8 udr); dmPrintByte 0], m).
Proof.
  intros Hst H27. unfold USART0_RX_vect, rx_switch.
  destruct (Z.eqb_spec (uint8 udr) 27) as [|_]; [contradiction|].
  rewrite Hst. cbn.
  now destruct ((uint8 udr =? 13) || (uint8 udr =? 10)).
Qed.

(** X9.  Display mode.  In [DISP_CHAR] every byte other than ESC is
    drawn at once, followed by a blank column, control characters
    included; CR and LF clear the display instead.  Nothing of the
    machine changes: the state, the store and both cursors are as they
    were. *)
Theorem display_mode_draws_and_keeps (bytes : list Z) (m : hacklace) :
  state m = DISP_CHAR ->
  Forall (fun b => uint8 b <> 27) bytes ->
  receive bytes m =
  (flat_map (fun b => if (uint8 b =? 13) || (uint8 b =? 10)
                      then [dmClearDisplay]
                      else [dmPrintChar (uint8 b); dmPrintByte 0]) bytes,
   m).
Proof.
  intros Hst Hb. induction Hb as [|b bytes H27 _ IH]; [reflexivity|].
  rewrite receive_cons, (rx_disp_char b m Hst H27). cbn [fst snd].
  rewrite IH. reflexivity.
Qed.

Lemma rx_appends (udr : Z) (m : hacklace) :
  state m <> RESET -> uint8 udr <> 27 ->
  let m' := snd (USART0_RX_vect false udr m) in
  state m' <> RESET /\
  msg_ptr m' = msg_ptr m /\
  (is_ee_state (state m) = true -> is_ee_state (state m') = true) /\
  ((eeprom m' = eeprom m /\ ee_write_ptr m' = ee_write_ptr m) \/
   (exists v, eeprom m' = eeprom_write_byte (eeprom m) (ee_write_ptr m) v /\
              ee_write_ptr m' = ee_write_ptr m + 1)).
Proof.
  intros HR H27. rx_by_state m.
  destruct (Z.eqb_spec (uint8 udr) 27) as [|_]; [contradiction|].
  rewrite snd_echo. cbn [state].
  destruct (Z.eqb_spec st IDLE) as [->|N0];
    [cbn; repeat split; try discriminate; auto;
     destruct (uint8 udr =? AUTH1_CHAR); discriminate|].
  destruct (Z.eqb_spec st AUTH) as [->|N1];
    [cbn; repeat split; try discriminate; auto;
     destruct (uint8 udr =? EE_AUTH2_CHAR); try discriminate;
     destruct (uint8 udr =? DISP_AUTH2_CHAR); discriminate|].
  destruct (Z.eqb_spec st RESET) as [|_]; [contradiction|].
  destruct (Z.eqb_spec st DISP_SET_MODE) as [->|N3];
    [cbn; repeat split; try discriminate; auto|].
  destruct (Z.eqb_spec st DISP_CHAR) as [->|N4];
    [destruct ((uint8 udr =? 13) || (uint8 udr =? 10)); cbn;
     repeat split; try discriminate; auto|].
  destruct (Z.eqb_spec st EE_NORMAL) as [->|N5].
  { destruct (uint8 udr =? 94); [cbn; repeat split; try discriminate; auto|].
    destruct (uint8 udr =? 36); [cbn; repeat split; try discriminate; auto|].
    destruct ((uint8 udr =? 13) || (uint8 udr =? 10));
      [cbn; repeat split; try discriminate; eauto|].
    destruct (32 <=? uint8 udr); cbn; repeat split; try discriminate; eauto. }
  destruct (Z.eqb_spec st EE_SPECIAL_CHAR) as [->|N6];
    [cbn; repeat split; try discriminate; eauto|].
  destruct (Z.eqb_spec st EE_HEX_CODE) as [->|N7].
  { match goal with |- context [15 <? ?c] => destruct (15 <? c) end;
      cbn; repeat split; try discriminate; eauto. }
  cbn. repeat split; auto.
Qed.

(** X10.  The store is append-only.  Whatever bytes arrive, as long as
    none is ESC: the write cursor never moves back and advances by at
    most one cell per byte, only the cells it passes over can change,
    and the play cursor is not touched. *)
Theorem store_is_append_only (bytes : list Z) :
  forall m : hacklace,
    state m <> RESET ->
    Forall (fun b => uint8 b <> 27) bytes ->
    let m' := snd (receive bytes m) in
    ee_write_ptr m <= ee_write_ptr m'
      <= ee_write_ptr m + Z.of_nat (length bytes) /\
    (forall a : Z, a < ee_write_ptr m \/ ee_write_ptr m' <= a ->
                   eeprom m' a = eeprom m a) /\
    msg_ptr m' = msg_ptr m.
Proof.
  induction bytes as [|b bytes IH]; intros m HR Hb.
  - cbn. repeat split; lia.
  - inversion Hb as [|? ? H27 Hbs]; subst.
    cbv zeta. rewrite receive_cons. cbn [snd length].
    destruct (rx_appends b m HR H27) as (H1 & H2 & _ & H3).
    destruct (IH _ H1 Hbs) as (H4 & H5 & H6).
    rewrite Nat2Z.inj_succ.
    destruct H3 as [[He Hw] | (v & He & Hw)]; rewrite Hw in *.
    + split; [lia|]. split; [|congruence].
      intros a Ha. rewrite H5 by lia. now rewrite He.
    + split; [lia|]. split; [|congruence].
      intros a Ha. rewrite H5 by lia. rewrite He.
      unfold eeprom_write_byte.
      destruct (Z.eqb_spec a (ee_write_ptr m)); [lia | reflexivity].
Qed.

(** X11.  Only ESC leaves the store-writing mode: from [EE_NORMAL],
    [EE_SPECIAL_CHAR] or [EE_HEX_CODE], a sequence of bytes without ESC
    ends in one of these three states. *)
Theorem only_esc_leaves_store_mode (bytes : list Z) :
  forall m : hacklace,
    is_ee_state (state m) = true ->
    Forall (fun b => uint8 b <> 27) bytes ->
    is_ee_state (state (snd (receive bytes m))) = true.
Proof.
  induction bytes as [|b bytes IH]; intros m Hee Hb; [exact Hee|].
  inversion Hb as [|? ? H27 Hbs]; subst.
  rewrite receive_cons. cbn [snd].
  assert (HR : state m <> RESET).
  { intros E. rewrite E in Hee. discriminate. }
  destruct (rx_appends b m HR H27) as (_ & _ & H3 & _).
  apply IH; [now apply H3 | exact Hbs].
Qed.

(** ** The system timer and the main loop *)

Lemma sample_button_scroll (temp : Z) (m : hacklace) :
  scroll_timer (sample_button temp m) = scroll_timer m /\
  scroll_speed (sample_button temp m) = scroll_speed m.
Proof.
  unfold sample_button.
  repeat match goal with
         | |- context [if ?c then _ else _] => destruct c
         end; split; reflexivity.
Qed.

Lemma timer_ticks_cons (pin : Z) (pins : list Z) (m : hacklace) :
  timer_ticks (pin :: pins) m =
  (fst (TIMER0_COMPB_vect pin m)
     ++ fst (timer_ticks pins (snd (TIMER0_COMPB_vect pin m))),
   snd (timer_ticks pins (snd (TIMER0_COMPB_vect pin m)))).
Proof.
  cbn [timer_ticks]. destruct (TIMER0_COMPB_vect pin m) as [o1 m1].
  cbn [fst snd]. now destruct (timer_ticks pins m1).
Qed.

(** X12.  Scroll pacing.  With [k] in the scroll timer the next [k]
    ticks make no driver call and the tick after them calls [dmScroll]
    once and reloads the timer with [scroll_speed]: the display scrolls
    every [scroll_speed + 1] ticks, whatever the button does. *)
Theorem scroll_every_speed_plus_one (k : nat) :
  forall (pins : list Z) (m : hacklace),
    scroll_timer m = Z.of_nat k ->
    ((length pins <= k)%nat -> fst (timer_ticks pins m) = []) /\
    (length pins = S k ->
     fst (timer_ticks pins m) = [dmScroll] /\
     scroll_timer (snd (timer_ticks pins m)) = scroll_speed m /\
     scroll_speed (snd (timer_ticks pins m)) = scroll_speed m).
Proof.
  induction k as [|k IH]; intros pins m Ht.
  - change (Z.of_nat 0) with 0 in Ht. split; intros Hlen.
    + destruct pins; [reflexivity | cbn in Hlen; lia].
    + destruct pins as [|p [|q pins]]; try discriminate.
      rewrite timer_ticks_cons. cbn [timer_ticks fst snd].
      unfold TIMER0_COMPB_vect. rewrite Ht. cbn [Z.eqb negb fst snd].
      destruct (sample_button_scroll (pb_sample p)
                  (set_scroll_timer (scroll_speed m) m)) as [H1 H2].
      rewrite H1, H2. repeat split.
  - split; intros Hlen.
    + destruct pins as [|p pins]; [reflexivity|].
      rewrite timer_ticks_cons. cbn [fst].
      unfold TIMER0_COMPB_vect.
      destruct (Z.eqb_spec (scroll_timer m) 0) as [E|_]; [lia|].
      cbn [negb fst snd app].
      apply (IH pins); [|cbn in Hlen; lia].
      destruct (sample_button_scroll (pb_sample p)
                  (set_scroll_timer (scroll_timer m - 1) m)) as [-> _].
      cbn [scroll_timer set_scroll_timer]. lia.
    + destruct pins as [|p pins]; [discriminate|].
      rewrite timer_ticks_cons. cbn [fst snd].
      unfold TIMER0_COMPB_vect.
      destruct (Z.eqb_spec (scroll_timer m) 0) as [E|_]; [lia|].
      cbn [negb fst snd app].
      destruct (sample_button_scroll (pb_sample p)
                  (set_scroll_timer (scroll_timer m - 1) m)) as [H1 H2].
      cbn [scroll_timer scroll_speed set_scroll_timer] in H1, H2.
      rewrite <- H2.
      apply (IH pins); [rewrite H1; lia | cbn in Hlen; lia].
Qed.

Lemma TIMER0_COMPB_vect_frame (pin : Z) (m : hacklace) :
  let t := snd (TIMER0_COMPB_vect pin m) in
  eeprom t = eeprom m /\ msg_ptr t = msg_ptr m /\
  ee_write_ptr t = ee_write_ptr m /\ scroll_speed t = scroll_speed m.
Proof.
  unfold TIMER0_COMPB_vect, sample_button.
  destruct m as [ee sp bt mp wp st v stm pt].
  repeat match goal with
         | |- context [if ?c then _ else _] => destruct c
         end; cbn;
  repeat match goal with
         | |- context [if ?c then _ else _] => destruct c
         end; cbn; repeat split.
Qed.

(** The ticks that fall into a wait leave the store and the cursors
    alone. *)
Lemma during_frame (pins : list Z) :
  forall m : hacklace,
    eeprom (during pins m) = eeprom m /\
    msg_ptr (during pins m) = msg_ptr m /\
    ee_write_ptr (during pins m) = ee_write_ptr m /\
    scroll_speed (during pins m) = scroll_speed m.
Proof.
  unfold during. induction pins as [|pin pins IH]; intros m.
  - cbn. repeat split.
  - rewrite timer_ticks_cons. cbn [snd].
    destruct (IH (snd (TIMER0_COMPB_vect pin m))) as (H1 & H2 & H3 & H4).
    destruct (TIMER0_COMPB_vect_frame pin m) as (F1 & F2 & F3 & F4).
    repeat split; congruence.
Qed.

Lemma during_nil (m : hacklace) : during [] m = m.
Proof. reflexivity. Qed.

Lemma main_loop_body_idle (fuel : nat) (w : waits) (m : hacklace) :
  between_ifs w = [] ->
  button m <> PB_RELEASE -> button m <> PB_LONGPRESS ->
  main_loop_body fuel w m = Some ([], m).
Proof.
  intros Hw Hr Hl. unfold main_loop_body.
  destruct (Z.eqb_spec (button m) PB_RELEASE) as [|_]; [contradiction|].
  rewrite Hw, during_nil.
  destruct (Z.eqb_spec (button m) PB_LONGPRESS) as [|_]; [contradiction|].
  reflexivity.
Qed.

Lemma ack_not_longpress : button_codes_ok -> PB_ACK <> PB_LONGPRESS.
Proof.
  intros (_ & _ & _ & _ & Ha & Hlp & _) E. rewrite E in Ha. contradiction.
Qed.

(** What [button |= PB_ACK] leaves in [button] is no event. *)
Lemma or_ack_not_release (b : Z) :
  button_codes_ok -> PB_ACK <> 0 -> uint8 (Z.lor b PB_ACK) <> PB_RELEASE.
Proof.
  intros codes Hack. rewrite (uint8_lor_ack codes), (release_code codes).
  intros E. apply Z.lor_eq_0_iff in E as [_ E]. contradiction.
Qed.

Lemma or_ack_not_longpress (b : Z) :
  button_codes_ok -> Z.lor PB_LONGPRESS PB_ACK <> PB_LONGPRESS ->
  uint8 (Z.lor b PB_ACK) <> PB_LONGPRESS.
Proof.
  intros codes Hbit. rewrite (uint8_lor_ack codes). intros E. apply Hbit.
  rewrite <- E at 1. rewrite <- Z.lor_assoc, Z.lor_diag. exact E.
Qed.

(** X13.  An event is handled once.  After a pass of the main loop that
    comes to its end, whatever ticks fell into its calls and waits and
    into its statements [button |= PB_ACK], a further pass makes no
    driver call and changes nothing, provided no tick falls between the
    two [if] statements of either pass, nor between the passes: the
    acknowledge bit keeps a handled release or long press from being
    taken up again. *)
Theorem event_is_handled_once (fuel fuel' : nat) (w w' : waits)
        (m : hacklace) (out : list dm_call) (m' : hacklace) :
  button_codes_ok ->
  PB_ACK <> 0 ->
  Z.lor PB_LONGPRESS PB_ACK <> PB_LONGPRESS ->
  between_ifs w = [] -> between_ifs w' = [] ->
  main_loop_body fuel w m = Some (out, m') ->
  main_loop_body fuel' w' m' = Some ([], m').
Proof.
  intros codes Hack Hbit Hw Hw' Hrun.
  assert (Hno : button m' <> PB_RELEASE /\ button m' <> PB_LONGPRESS).
  { unfold main_loop_body in Hrun.
    destruct (Z.eqb_spec (button m) PB_RELEASE) as [Hrel|Hrel].
    - destruct (DisplayMessage fuel _ _) as [[[o1 m1] n1]|]; [|discriminate].
      rewrite Hw, during_nil in Hrun. cbn [button set_button] in Hrun.
      match type of Hrun with
      | context [uint8 (Z.lor ?b PB_ACK) =? PB_LONGPRESS] =>
          destruct (Z.eqb_spec (uint8 (Z.lor b PB_ACK)) PB_LONGPRESS) as [E|_];
          [now apply (or_ack_not_longpress b codes Hbit) in E|];
          injection Hrun as _ <-; cbn [button set_button]; split;
          [apply (or_ack_not_release b codes Hack)
          |apply (or_ack_not_longpress b codes Hbit)]
      end.
    - rewrite Hw, during_nil in Hrun.
      destruct (Z.eqb_spec (button m) PB_LONGPRESS) as [Hlp|Hlp].
      + destruct (GoToSleep fuel w _) as [[o2 m2]|]; [|discriminate].
        injection Hrun as _ <-. cbn [button set_button]. split;
          [apply (or_ack_not_release _ codes Hack)
          |apply (or_ack_not_longpress _ codes Hbit)].
      + injection Hrun as _ <-. now split. }
  now apply main_loop_body_idle.
Qed.

(** ** Going through the play list *)

Lemma short_press_plays (fuel : nat) (w : waits) (m : hacklace) (mode : Z)
      (us : list unit_) :
  button_codes_ok ->
  between_ifs w = [] ->
  (before_play w = [] /\ in_play w = []) \/
    Z.lor PB_LONGPRESS PB_ACK <> PB_LONGPRESS ->
  forallb unit_ok us = true ->
  stored (eeprom m) (msg_ptr m) (mode :: encode us ++ [0]) ->
  (length (encode us) <= fuel)%nat ->
  exists m',
    main_loop_body fuel w (set_button PB_RELEASE m)
    = Some (shown (mode, us), m') /\
    eeprom m' = eeprom m /\
    msg_ptr m' =
      (let next := msg_ptr m + Z.of_nat (length (encode us)) + 2 in
       if eeprom_read_byte (eeprom m) next =? 0 then messages else next).
Proof.
  intros codes Hbw Hw Hok Hst Hfuel.
  pose proof codes as (Hrel & _ & _ & Hab & _).
  unfold main_loop_body. cbn [button set_button]. rewrite Z.eqb_refl.
  set (m0 := during (before_play w) _).
  assert (Hm0 : eeprom m0 = eeprom m /\ msg_ptr m0 = msg_ptr m).
  { subst m0. destruct (during_frame (before_play w) (set_button PB_RELEASE m))
      as (-> & -> & _). now split. }
  destruct Hm0 as [Hee0 Hmp0].
  rewrite <- Hee0, <- Hmp0 in Hst.
  rewrite (DisplayMessage_encoded us mode (msg_ptr m0) m0 fuel Hok Hst Hfuel).
  cbn [SetMode snd fst].
  set (m1 := during (in_play w) _).
  set (next := if _ =? 0 then messages else _).
  rewrite Hbw, during_nil. cbn [button set_button].
  assert (Hnl : uint8 (Z.lor (button (set_msg_ptr next m1)) PB_ACK)
                <> PB_LONGPRESS).
  { destruct Hw as [[Hw1 Hw2]|Hw]; [|now apply or_ack_not_longpress].
    subst m1 m0. rewrite Hw1, Hw2, !during_nil.
    cbn [button set_button set_msg_ptr set_scroll_speed].
    rewrite Hrel. cbn [Z.lor]. rewrite (uint8_small PB_ACK Hab).
    apply (ack_not_longpress codes). }
  destruct (Z.eqb_spec (uint8 (Z.lor (button (set_msg_ptr next m1)) PB_ACK))
                       PB_LONGPRESS) as [|_]; [contradiction|].
  eexists. split; [reflexivity|].
  cbn [eeprom msg_ptr set_button].
  destruct (during_frame (in_short_ack w) (set_msg_ptr next m1))
    as (F1 & F2 & _).
  rewrite F1, F2. cbn [eeprom msg_ptr set_msg_ptr].
  destruct (during_frame (in_play w)
              (set_scroll_speed (uint8 (spd_conv (Z.land mode 7))) m0))
    as (G1 & _).
  fold m1 in G1. rewrite G1. cbn [eeprom set_scroll_speed].
  split; [exact Hee0|].
  subst next. rewrite Hee0, Hmp0. reflexivity.
Qed.

Lemma lay_out_cons (msg : Z * list unit_) (rest : list (Z * list unit_)) :
  lay_out (msg :: rest) = (fst msg :: encode (snd msg) ++ [0]) ++ lay_out rest.
Proof. unfold lay_out. cbn [flat_map]. now rewrite <- app_assoc. Qed.

Lemma short_presses_from (fuel : nat) (msgs : list (Z * list unit_)) :
  button_codes_ok ->
  forall (ws : list waits) (m : hacklace),
    msgs <> [] ->
    length ws = length msgs ->
    Forall (fun w => between_ifs w = []) ws ->
    Forall (fun w => before_play w = [] /\ in_play w = []) ws \/
      Z.lor PB_LONGPRESS PB_ACK <> PB_LONGPRESS ->
    Forall (fun msg => forallb unit_ok (snd msg) = true) msgs ->
    Forall (fun msg => (length (encode (snd msg)) <= fuel)%nat) msgs ->
    Forall (fun msg => fst msg <> 0) (tl msgs) ->
    stored (eeprom m) (msg_ptr m) (lay_out msgs) ->
    exists m',
      short_presses fuel ws m = Some (flat_map shown msgs, m') /\
      eeprom m' = eeprom m /\
      msg_ptr m' = messages.
Proof.
  intros codes. induction msgs as [|[mode us] rest IH];
    intros ws m Hne Hlen Hbw Hw Hok Hfuel Hmode Hst; [contradiction|].
  destruct ws as [|w ws]; [discriminate|].
  cbn [length] in Hlen. apply Nat.succ_inj in Hlen.
  inversion Hbw as [|? ? Hbw1 Hbw2]; subst.
  assert (Hw1 : (before_play w = [] /\ in_play w = []) \/
                Z.lor PB_LONGPRESS PB_ACK <> PB_LONGPRESS).
  { destruct Hw as [Hw|Hw]; [left; now inversion Hw | now right]. }
  assert (Hw2 : Forall (fun w => before_play w = [] /\ in_play w = []) ws \/
                Z.lor PB_LONGPRESS PB_ACK <> PB_LONGPRESS).
  { destruct Hw as [Hw|Hw]; [left; now inversion Hw | now right]. }
  inversion Hok as [|? ? Hok1 Hok2]; subst.
  inversion Hfuel as [|? ? Hf1 Hf2]; subst.
  cbn [fst snd tl] in *.
  rewrite lay_out_cons in Hst. cbn [fst snd] in Hst.
  apply stored_app in Hst as [Hmsg Hrest].
  cbn [length] in Hrest. rewrite length_app in Hrest. cbn [length] in Hrest.
  destruct (short_press_plays fuel w m mode us codes Hbw1 Hw1 Hok1 Hmsg Hf1)
    as (m1 & Hrun & Hee & Hptr).
  cbn [short_presses flat_map]. rewrite Hrun.
  replace (msg_ptr m + Z.of_nat (S (length (encode us) + 1)))
    with (msg_ptr m + Z.of_nat (length (encode us)) + 2) in Hrest by lia.
  cbv zeta in Hptr.
  destruct rest as [|[mode' us'] rest'].
  - destruct ws; [|discriminate].
    cbn [lay_out flat_map app stored] in Hrest. destruct Hrest as [Hz _].
    rewrite Hz in Hptr. cbn [Z.eqb] in Hptr.
    exists m1. cbn [short_presses flat_map]. rewrite !app_nil_r.
    repeat split; assumption.
  - inversion Hmode as [|? ? Hm1 Hm2]; subst. cbn [fst] in Hm1.
    assert (Hhead : eeprom_read_byte (eeprom m)
                      (msg_ptr m + Z.of_nat (length (encode us)) + 2) = mode').
    { rewrite lay_out_cons in Hrest. cbn [fst app stored] in Hrest.
      exact (proj1 Hrest). }
    rewrite Hhead in Hptr.
    destruct (Z.eqb_spec mode' 0) as [|_]; [contradiction|].
    destruct (IH ws m1 ltac:(discriminate) Hlen Hbw2 Hw2 Hok2 Hf2 Hm2)
      as (m2 & Hrun2 & Hee2 & Hp2).
    { rewrite Hee, Hptr. exact Hrest. }
    rewrite Hrun2. exists m2. repeat split; congruence.
Qed.

(** X14.  Short presses go round the play list.  With the play cursor at
    the base of a store that holds a play list (every mode byte after
    the first one non-zero), as many short presses as there are messages
    show the messages one after the other, each with its own mode, and
    leave the play cursor at the base again; the store is not changed.
    No tick is to fall between the two [if] statements of a pass.  Ticks
    may fall into the statements [button |= PB_ACK]; they may fall into
    the calls of [DisplayMessage] as well when the acknowledge bit is
    not part of the long press code. *)
Theorem short_presses_go_round (fuel : nat) (msgs : list (Z * list unit_))
        (ws : list waits) (m : hacklace) :
  button_codes_ok ->
  msgs <> [] ->
  length ws = length msgs ->
  Forall (fun w => between_ifs w = []) ws ->
  Forall (fun w => before_play w = [] /\ in_play w = []) ws \/
    Z.lor PB_LONGPRESS PB_ACK <> PB_LONGPRESS ->
  Forall (fun msg => forallb unit_ok (snd msg) = true) msgs ->
  Forall (fun msg => (length (encode (snd msg)) <= fuel)%nat) msgs ->
  Forall (fun msg => fst msg <> 0) (tl msgs) ->
  msg_ptr m = messages ->
  stored (eeprom m) messages (lay_out msgs) ->
  exists m',
    short_presses fuel ws m = Some (flat_map shown msgs, m') /\
    eeprom m' = eeprom m /\
    msg_ptr m' = messages.
Proof.
  intros codes Hne Hlen Hbw Hw Hok Hfuel Hmode Hptr Hst.
  apply short_presses_from; try assumption. now rewrite Hptr.
Qed.

Lemma or_ack_sets_ack (b : Z) :
  button_codes_ok -> Z.land (uint8 (Z.lor b PB_ACK)) PB_ACK = PB_ACK.
Proof.
  intros codes. rewrite (uint8_lor_ack codes).
  rewrite Z.land_lor_distr_l, Z.land_diag.
  apply Z.bits_inj'. intros i Hi. rewrite Z.lor_spec, Z.land_spec.
  destruct (Z.testbit (uint8 b) i), (Z.testbit PB_ACK i); reflexivity.
Qed.

(** X15.  A long press starts the list over.  Taking up a long press
    (no tick falls between the two [if] statements of the pass), the
    main loop shows the sad smiley, goes to sleep, shows the happy
    smiley on waking and displays the first message of the store,
    wherever the play cursor was and whatever ticks fall into the
    delays, into the call of [DisplayMessage] and into the statement
    [button |= PB_ACK]; the store is as it was, the cursor then points
    behind the first message, and [button], whatever the ticks have made
    of it, carries the acknowledge bit. *)
Theorem long_press_restarts_list (fuel : nat) (w : waits) (m : hacklace)
        (mode : Z) (us : list unit_) :
  button_codes_ok ->
  between_ifs w = [] ->
  button m = PB_LONGPRESS ->
  forallb unit_ok us = true ->
  stored (eeprom m) messages (mode :: encode us ++ [0]) ->
  (length (encode us) <= fuel)%nat ->
  exists m',
    main_loop_body fuel w m =
    Some ([dmClearDisplay; dmPrintChar 130; dmClearDisplay; dmPrintChar 131]
            ++ shown (mode, us), m') /\
    eeprom m' = eeprom m /\
    Z.land (button m') PB_ACK = PB_ACK /\
    msg_ptr m' =
      (let next := messages + Z.of_nat (length (encode us)) + 2 in
       if eeprom_read_byte (eeprom m) next =? 0 then messages else next).
Proof.
  intros codes Hbw Hb Hok Hst Hfuel.
  unfold main_loop_body, GoToSleep. rewrite Hb.
  destruct (Z.eqb_spec PB_LONGPRESS PB_RELEASE) as [E|_].
  { rewrite (release_code codes) in E. now apply (longpress_nonzero codes) in E. }
  rewrite Hbw, during_nil, Hb, Z.eqb_refl.
  set (m0 := during (after_wake w) (during (before_sleep w)
                                      (during (in_delay w) m))).
  assert (Hee : eeprom m0 = eeprom m).
  { subst m0.
    destruct (during_frame (after_wake w)
                (during (before_sleep w) (during (in_delay w) m))) as (-> & _).
    destruct (during_frame (before_sleep w) (during (in_delay w) m)) as (-> & _).
    now destruct (during_frame (in_delay w) m) as (-> & _). }
  rewrite <- Hee in Hst.
  rewrite (DisplayMessage_encoded us mode messages m0 fuel Hok Hst Hfuel).
  cbn [SetMode snd fst].
  set (m1 := during (in_restart w) _).
  set (next := if _ =? 0 then messages else _).
  eexists. split; [reflexivity|].
  cbn [eeprom set_button button msg_ptr].
  destruct (during_frame (in_long_ack w) (set_msg_ptr next m1))
    as (F1 & F2 & _).
  rewrite F1, F2. cbn [eeprom msg_ptr set_msg_ptr].
  destruct (during_frame (in_restart w)
              (set_scroll_speed (uint8 (spd_conv (Z.land mode 7))) m0))
    as (G1 & _).
  fold m1 in G1. rewrite G1. cbn [eeprom set_scroll_speed].
  split; [exact Hee|]. split; [now apply or_ack_sets_ack|].
  subst next. rewrite Hee. reflexivity.
Qed.

(** ** The handlers among themselves *)

Ltac split_ifs :=
  repeat match goal with
         | |- context [if ?c then _ else _] => destruct c
         end.

(** X16.  Each interrupt handler keeps to its own variables.  The
    serial handler never touches [button] nor the two timers; the system
    timer handler never touches the store, the cursors, the serial state
    and accumulator, nor [scroll_speed]. *)
Theorem handlers_keep_to_their_variables (fe : bool) (udr pin : Z)
        (m : hacklace) :
  (let r := snd (USART0_RX_vect fe udr m) in
   button r = button m /\ scroll_timer r = scroll_timer m /\
   pb_timer r = pb_timer m) /\
  (let t := snd (TIMER0_COMPB_vect pin m) in
   eeprom t = eeprom m /\ msg_ptr t = msg_ptr m /\
   ee_write_ptr t = ee_write_ptr m /\ state t = state m /\
   val t = val m /\ scroll_speed t = scroll_speed m).
Proof.
  split.
  - unfold USART0_RX_vect. destruct fe; [cbn; auto|].
    rewrite snd_echo. unfold rx_switch.
    destruct m as [ee sp bt mp wp st v stm pt].
    split_ifs; cbn; auto.
  - unfold TIMER0_COMPB_vect, sample_button.
    destruct m as [ee sp bt mp wp st v stm pt].
    split_ifs; cbn; split_ifs; cbn; repeat split.
Qed.

Lemma byte_minus_one (x : Z) : 0 <= x < 256 -> x <> 0 -> 0 <= x - 1 < 256.
Proof. lia. Qed.

(** X17.  The byte variables stay bytes.  From a machine whose
    [uint8_t] variables hold bytes, both interrupt handlers and
    [DisplayMessage] lead to such a machine again; in particular the two
    timers are only counted down when they are not zero. *)
Theorem byte_variables_stay_bytes (fe : bool) (udr pin adr : Z)
        (fuel : nat) (m : hacklace) :
  byte_valued m ->
  byte_valued (snd (USART0_RX_vect fe udr m)) /\
  byte_valued (snd (TIMER0_COMPB_vect pin m)) /\
  (forall out m' next,
      DisplayMessage fuel adr m = Some (out, m', next) -> byte_valued m').
Proof.
  intros (Hsp & Hbt & Hst & Hv & Hstm & Hpt).
  destruct m as [ee sp bt mp wp st v stm pt].
  cbn [scroll_speed button state val scroll_timer pb_timer] in *.
  split; [|split].
  - unfold USART0_RX_vect, byte_valued. destruct fe; [cbn; repeat split; lia|].
    rewrite snd_echo. unfold rx_switch.
    split_ifs; cbn; repeat split; try lia; try apply uint8_range;
      unfold IDLE, AUTH, RESET, DISP_SET_MODE, DISP_CHAR, EE_NORMAL,
        EE_SPECIAL_CHAR, EE_HEX_CODE; lia.
  - unfold TIMER0_COMPB_vect, sample_button, byte_valued.
    cbn [scroll_timer scroll_speed button pb_timer set_scroll_timer].
    destruct (Z.eqb_spec stm 0); cbn [negb];
      destruct (pb_sample pin =? 0);
      cbn [button set_scroll_timer pb_timer];
      destruct (Z.land bt PB_PRESS =? 0); cbn [negb];
      try destruct (bt =? PB_PRESS); try destruct (Z.eqb_spec pt 0);
      cbn; repeat split; try lia; try apply uint8_range.
  - intros out m' next Hrun. apply DisplayMessage_machine in Hrun. subst m'.
    unfold byte_valued. cbn. repeat split; try lia; apply uint8_range.
Qed.

(** ** Two more edges *)

(** X18.  The ['^'] escape of the serial line is resolved on input: in
    [EE_NORMAL], ['^'] followed by any byte [c] other than ESC appends
    the single byte [(c + 63) mod 256], also when [c] is a line end,
    ['$'] or ['^'] itself, and the state is [EE_NORMAL] again. *)
Theorem serial_escape_stores_shifted (c : Z) (m : hacklace) :
  state m = EE_NORMAL ->
  0 <= c < 256 -> c <> 27 ->
  let m' := snd (receive [94; c] m) in
  eeprom m' = eeprom_write_byte (eeprom m) (ee_write_ptr m) (c + 63) /\
  ee_write_ptr m' = ee_write_ptr m + 1 /\
  msg_ptr m' = msg_ptr m /\
  state m' = EE_NORMAL.
Proof.
  intros Hst Hc H27. cbv zeta. rewrite receive_cons. cbn [snd].
  assert (E : snd (USART0_RX_vect false 94 m) = set_state EE_SPECIAL_CHAR m).
  { unfold USART0_RX_vect, rx_switch. cbn. rewrite Hst. reflexivity. }
  rewrite E, receive_cons. cbn [snd receive].
  unfold USART0_RX_vect. rewrite (uint8_small c Hc).
  destruct (Z.eqb_spec c 27) as [|_]; [contradiction|].
  rewrite snd_echo. unfold rx_switch. cbn. repeat split.
Qed.

(** X19.  Every press starts with a full timer.  Whatever the machine,
    once a tick has sampled the button up, the next tick that samples it
    down sets [button] to [PB_PRESS] and the push button timer to
    [PB_LONGPRESS_DELAY], whether or not the main program executed
    [button |= PB_ACK] in between:
    an event still pending is overwritten, and nothing of an earlier
    press is carried over.  Should the tick that samples the button up
    fall between the read and the write of that statement, this holds
    when the button was at rest before. *)
Theorem press_after_release_starts_timer (up down : Z * ack) (m : hacklace) :
  button_codes_ok ->
  released up -> pressed down ->
  (snd up = ack_across -> at_rest m) ->
  button (tick down (tick_step up m)) = PB_PRESS /\
  pb_timer (tick down (tick_step up m)) = uint8 PB_LONGPRESS_DELAY.
Proof.
  intros codes Hup Hdown Hacross.
  apply (tick_press codes); [exact Hdown|].
  unfold at_rest. destruct (tick_step_fields up m) as [-> _].
  pose proof (released_tick_at_rest up m Hup) as Hrest.
  destruct (snd up);
    [exact Hrest | now apply (or_ack_at_rest codes)
    | apply (or_ack_at_rest codes); now apply Hacross].
Qed.

End MoreProperties.

(** * The definitions at work on concrete inputs *)

#[local] Existing Instance sample_headers.

(** The message body ['~~'] on the sample machine. *)
Lemma tilde_tilde_displays_nothing_witness :
  exists out m' next,
    DisplayMessage 2 0 (power_on (store_at blank_eeprom 0 [3; 126; 126; 0]))
    = Some (out, m', next) /\
    out = [dmSetScrolling 1 0 0; dmClearDisplay] /\
    out <> [dmSetScrolling 1 0 0; dmClearDisplay; dmPrintChar 126].
Proof.
  assert (Hst : stored (store_at blank_eeprom 0 [3; 126; 126; 0]) 0
                       [3; 126; 126; 0]) by (cbn; repeat split).
  exact (tilde_tilde_displays_nothing
           3 0 (power_on (store_at blank_eeprom 0 [3; 126; 126; 0])) 2
           Hst (le_n 2)).
Defined.

(** ["HI"] followed by a message with mode byte 5: the next message is
    at address 4. *)
Lemma DisplayMessage_returns_next_witness :
  exists out m',
    DisplayMessage 2 0 (power_on (store_at blank_eeprom 0 [3; 72; 73; 0; 5]))
    = Some (out, m', 4).
Proof.
  assert (Hst : stored (store_at blank_eeprom 0 [3; 72; 73; 0; 5]) 0
                       (3 :: encode [Literal 72; Literal 73] ++ [0]))
    by (cbn; repeat split).
  exact (proj2 (proj1 (DisplayMessage_returns_next
                         0 (power_on (store_at blank_eeprom 0 [3; 72; 73; 0; 5])))
                      [Literal 72; Literal 73] 3 2%nat eq_refl Hst (le_n 2))).
Defined.

(** ['H'], ['~Z'] with only three animations, ['I']: two blank columns
    and nothing between them. *)
Lemma animation_index_out_of_range_witness :
  exists m' next,
    DisplayMessage 4 0 (power_on (store_at blank_eeprom 0 [3; 72; 126; 90; 73; 0]))
    = Some ([dmSetScrolling 1 0 0; dmClearDisplay;
             dmPrintChar 72; dmPrintByte 0; dmPrintByte 0; dmPrintChar 73],
            m', next).
Proof.
  assert (Hst : stored (store_at blank_eeprom 0 [3; 72; 126; 90; 73; 0]) 0
                       (3 :: encode ([Literal 72] ++ AnimRef 90 :: [Literal 73])
                          ++ [0]))
    by (cbn; repeat split).
  assert (Hb : 0 <= 90 < 256) by lia.
  assert (Hne : 90 <> 126) by lia.
  assert (Hidx : ANIMATION_COUNT <= uint8 (90 - 65)) by (cbn; lia).
  exact (animation_index_out_of_range
           (power_on (store_at blank_eeprom 0 [3; 72; 126; 90; 73; 0]))
           0 3 90 [Literal 72] [Literal 73] eq_refl eq_refl Hb Hne Hidx
           4%nat Hst (le_n 4)).
Defined.

(** ['H'], ['^'] and a zero byte, ['I']: character 63 between the two
    letters, and the message goes on to its terminator. *)
Lemma zero_inside_a_unit_witness :
  exists m' next,
    DisplayMessage 4 0 (power_on (store_at blank_eeprom 0 [3; 72; 94; 0; 73; 0]))
    = Some ([dmSetScrolling 1 0 0; dmClearDisplay;
             dmPrintChar 72; dmPrintByte 0; dmPrintChar 63; dmPrintByte 0;
             dmPrintChar 73],
            m', next).
Proof.
  assert (Hst : stored (store_at blank_eeprom 0 [3; 72; 94; 0; 73; 0]) 0
                       (3 :: encode ([Literal 72] ++ Escaped 0 :: [Literal 73])
                          ++ [0]))
    by (cbn; repeat split).
  assert (Hcount : ANIMATION_COUNT <= 191) by (cbn; lia).
  exact (proj1 (zero_inside_a_unit
                  (power_on (store_at blank_eeprom 0 [3; 72; 94; 0; 73; 0]))
                  0 3 [Literal 72] [Literal 73] eq_refl eq_refl Hcount)
               4%nat Hst (le_n 4)).
Defined.

Lemma sample_codes_ok : button_codes_ok.
Proof.
  unfold button_codes_ok. cbn.
  repeat split; try lia; discriminate.
Defined.


(** Nor does a short press hold when the tick that samples the release
    falls between the read and the write of [button |= PB_ACK]: the
    write puts the press back, and the next tick raises the release
    again. *)
Lemma interrupted_acknowledge_repeats_release :
  count_events PB_RELEASE
    ([(pin_down, no_ack)] ++ [(pin_up, ack_across); (pin_up, no_ack)])
    (power_on blank_eeprom) = 2%nat.
Proof. reflexivity. Qed.


(** C4 as stated fails at [':'] (58): the byte is outside ['0'..'9'] and
    ['A'..'F'], yet it does not end the literal; it is taken as the
    digit 10. *)
Lemma colon_does_not_end_hex_literal :
  let m := set_state EE_HEX_CODE (power_on blank_eeprom) in
  let m' := snd (USART0_RX_vect false 58 m) in
  state m' = EE_HEX_CODE /\ state m' <> EE_NORMAL /\
  ee_write_ptr m' = ee_write_ptr m /\ val m' = 10.
Proof. cbn. repeat split. discriminate. Qed.

Lemma hex_code_step_witness :
  val (snd (USART0_RX_vect false 52
              (set_state EE_HEX_CODE (power_on blank_eeprom)))) = 4.
Proof.
  pose proof (hex_code_step (set_state EE_HEX_CODE (power_on blank_eeprom)) 52
                eq_refl ltac:(lia) ltac:(lia)) as [_ Hs].
  cbn [hex_digit Z.leb Z.compare Pos.compare Pos.compare_cont andb] in Hs.
  rewrite Hs. reflexivity.
Defined.

(** C5 as stated fails: after ['H' 'L' '$' '4' '1' ' '] the write cursor
    has advanced by one, not two, and no space has been stored. *)
Lemma space_after_hex_literal_is_not_stored :
  let m := power_on blank_eeprom in
  let m' := snd (receive [72; 76; 36; 52; 49; 32] m) in
  eeprom_read_byte (eeprom m') (ee_write_ptr m) = 65 /\
  ee_write_ptr m' <> ee_write_ptr m + 2 /\
  eeprom_read_byte (eeprom m') (ee_write_ptr m + 1) <> 32.
Proof. cbn. repeat split; discriminate. Qed.

Lemma hex_literal_then_space_witness :
  ee_write_ptr (snd (receive [72; 76; 36; 52; 49; 32] (power_on blank_eeprom)))
  = 1.
Proof.
  exact (proj1 (proj2 (hex_literal_then_space (power_on blank_eeprom) eq_refl))).
Defined.

(** C7 as stated fails in [DISP_CHAR]: the byte ['A'] is drawn with a
    blank column after it; the display is not cleared first. *)
Lemma no_echo_in_disp_char :
  let out := fst (USART0_RX_vect false 65
                    (set_state DISP_CHAR (power_on blank_eeprom))) in
  out = [dmPrintChar 65; dmPrintByte 0] /\
  ~ (exists rest, out = dmClearDisplay :: dmPrintChar 65 :: rest).
Proof.
  cbn. split; [reflexivity|]. intros [rest Hrest]. discriminate.
Qed.

Lemma echo_in_ee_states_only_witness :
  fst (USART0_RX_vect false 65 (set_state EE_NORMAL (power_on blank_eeprom)))
  = [dmClearDisplay; dmPrintChar 65].
Proof.
  exact (proj1 (proj1 (echo_in_ee_states_only
                         (set_state EE_NORMAL (power_on blank_eeprom)) 65
                         ltac:(lia) ltac:(lia))
                      (or_introl eq_refl))).
Defined.

(** C8 as stated fails: after ESC the machine is in [IDLE], not in
    [RESET], and the byte that follows is not used up by a reset: ['H']
    is taken as the first authentication byte. *)
Lemma esc_does_not_rest_in_reset :
  let m := power_on blank_eeprom in
  state (snd (USART0_RX_vect false 27 m)) <> RESET /\
  state (snd (receive [27; 72] m)) = AUTH /\
  state (snd (receive [27; 72] m)) <> IDLE.
Proof. cbn. repeat split; discriminate. Qed.

Lemma esc_handled_as_reset_witness :
  state (snd (USART0_RX_vect false 27
                (set_state EE_HEX_CODE (power_on blank_eeprom)))) = IDLE.
Proof.
  exact (proj1 (esc_handled_as_reset
                  (set_state EE_HEX_CODE (power_on blank_eeprom)) 27
                  (or_introl eq_refl))).
Defined.

(** ** The further properties on concrete inputs *)

Lemma ee_hi_stored : stored ee_hi 0 (3 :: encode [Literal 72; Literal 73] ++ [0]).
Proof. cbn. repeat split. Defined.

(** Mode byte [0xBB]: bidirectional, delay level 3, increment 5, speed
    level 3. *)
Lemma SetMode_fields_witness :
  fst (SetMode 187 (power_on blank_eeprom)) = [dmSetScrolling 5 1 3].
Proof.
  assert (H3 : 0 <= 3 < 8) by lia.
  exact (f_equal fst (SetMode_fields true true 3 3 (power_on blank_eeprom) H3 H3)).
Defined.

Lemma DisplayMessage_displays_units_witness :
  DisplayMessage 2 0 (power_on ee_hi) =
  Some ([dmSetScrolling 1 0 0; dmClearDisplay;
         dmPrintChar 72; dmPrintByte 0; dmPrintChar 73],
        set_scroll_speed 3 (power_on ee_hi), 0).
Proof.
  exact (DisplayMessage_displays_units [Literal 72; Literal 73] 3 0
           (power_on ee_hi) 2 eq_refl ee_hi_stored (le_n 2)).
Defined.

(** ESC, ['H'], ['L'], mode ['3'], ["HI"] and two line ends, then the
    message is played. *)
Lemma upload_then_play_witness :
  exists m',
    DisplayMessage 2 0
      (snd (receive ([27; 72; 76; 51] ++ [72; 73] ++ [13; 13])
                    (power_on blank_eeprom))) =
    Some ([dmSetScrolling 1 0 3; dmClearDisplay;
           dmPrintChar 72; dmPrintByte 0; dmPrintChar 73], m', 0).
Proof.
  eexists.
  exact (upload_then_play (power_on blank_eeprom) 51 [72; 73]
           eq_refl eq_refl 2%nat (le_n 2)).
Defined.

Lemma typed_text_is_appended_witness :
  ee_write_ptr (snd (receive [72; 73]
                       (set_state EE_NORMAL (power_on blank_eeprom)))) = 2.
Proof.
  exact (proj1 (proj2 (typed_text_is_appended
                         [72; 73] (set_state EE_NORMAL (power_on blank_eeprom))
                         eq_refl eq_refl))).
Defined.

(** ['$412 ']: three digits, the byte stored is [0x12]. *)
Lemma hex_literal_appends_one_byte_witness :
  eeprom (snd (receive (36 :: [52; 49; 50] ++ [32])
                 (set_state EE_NORMAL (power_on blank_eeprom))))
  = eeprom_write_byte blank_eeprom 0 18.
Proof.
  assert (Hd : Forall (fun c => hex_digit c <> None) [52; 49; 50])
    by (repeat constructor; discriminate).
  assert (Hr : 0 <= 32 < 256) by lia.
  assert (H27 : 32 <> 27) by lia.
  exact (proj1 (hex_literal_appends_one_byte
                  [52; 49; 50] 32 (set_state EE_NORMAL (power_on blank_eeprom))
                  eq_refl Hd eq_refl Hr H27)).
Defined.

(** The byte [0xA5] as ['$A5 ']. *)
Lemma hex_literal_round_trip_witness :
  eeprom (snd (receive [36; 65; 53; 32]
                 (set_state EE_NORMAL (power_on blank_eeprom))))
  = eeprom_write_byte blank_eeprom 0 165.
Proof.
  assert (Hv : 0 <= 165 < 256) by lia.
  exact (proj1 (hex_literal_round_trip
                  165 (set_state EE_NORMAL (power_on blank_eeprom)) Hv eq_refl)).
Defined.

Lemma no_store_write_without_L_witness :
  eeprom (snd (receive [72; 68; 3; 65; 27; 72; 72] (power_on ee_hi))) = ee_hi.
Proof.
  assert (Hb : Forall (fun b => uint8 b <> 76) [72; 68; 3; 65; 27; 72; 72])
    by (repeat constructor; discriminate).
  exact (proj1 (proj2 (no_store_write_without_L
                         [72; 68; 3; 65; 27; 72; 72] (power_on ee_hi)
                         eq_refl Hb))).
Defined.

Lemma display_mode_draws_and_keeps_witness :
  receive [65; 7; 13] (set_state DISP_CHAR (power_on blank_eeprom)) =
  ([dmPrintChar 65; dmPrintByte 0; dmPrintChar 7; dmPrintByte 0;
    dmClearDisplay],
   set_state DISP_CHAR (power_on blank_eeprom)).
Proof.
  assert (Hb : Forall (fun b => uint8 b <> 27) [65; 7; 13])
    by (repeat constructor; discriminate).
  exact (display_mode_draws_and_keeps
           [65; 7; 13] (set_state DISP_CHAR (power_on blank_eeprom))
           eq_refl Hb).
Defined.

Lemma store_is_append_only_witness :
  msg_ptr (snd (receive [72; 76; 65; 94; 66; 13] (power_on ee_hi))) = 0.
Proof.
  assert (HR : state (power_on ee_hi) <> RESET) by discriminate.
  assert (Hb : Forall (fun b => uint8 b <> 27) [72; 76; 65; 94; 66; 13])
    by (repeat constructor; discriminate).
  exact (proj2 (proj2 (store_is_append_only
                         [72; 76; 65; 94; 66; 13] (power_on ee_hi) HR Hb))).
Defined.

Lemma only_esc_leaves_store_mode_witness :
  is_ee_state (state (snd (receive [94; 65; 36; 52]
                             (set_state EE_NORMAL (power_on blank_eeprom)))))
  = true.
Proof.
  assert (Hb : Forall (fun b => uint8 b <> 27) [94; 65; 36; 52])
    by (repeat constructor; discriminate).
  exact (only_esc_leaves_store_mode
           [94; 65; 36; 52] (set_state EE_NORMAL (power_on blank_eeprom))
           eq_refl Hb).
Defined.

(** At power on the scroll timer holds 1: the second tick scrolls. *)
Lemma scroll_every_speed_plus_one_witness :
  fst (timer_ticks [pin_up; pin_up] (power_on blank_eeprom)) = [dmScroll].
Proof.
  exact (proj1 (proj2 (scroll_every_speed_plus_one
                         1 [pin_up; pin_up] (power_on blank_eeprom) eq_refl)
                      eq_refl)).
Defined.

(** A short press taken up while the button is pressed anew: two ticks
    fall into the display of the message, one into the statement that
    acknowledges the event. *)
Lemma event_is_handled_once_witness :
  exists out m',
    main_loop_body 2 (mkWaits [] [pin_down; pin_down] [pin_down] [] [] [] [] [] [])
                   (set_button PB_RELEASE (power_on ee_hi)) = Some (out, m') /\
    main_loop_body 0 no_waits m' = Some ([], m').
Proof.
  assert (Hack : PB_ACK <> 0) by discriminate.
  assert (Hbit : Z.lor PB_LONGPRESS PB_ACK <> PB_LONGPRESS) by discriminate.
  do 2 eexists. split; [reflexivity|].
  exact (event_is_handled_once 2 0
           (mkWaits [] [pin_down; pin_down] [pin_down] [] [] [] [] [] [])
           no_waits (set_button PB_RELEASE (power_on ee_hi))
           _ _ sample_codes_ok Hack Hbit eq_refl eq_refl eq_refl).
Defined.

Lemma short_presses_go_round_witness :
  exists m',
    short_presses 1 [mkWaits [pin_up] [pin_down] [pin_down] [] [] [] [] [] [];
                     no_waits]
                  (power_on ee_two) =
    Some ([dmSetScrolling 1 0 0; dmClearDisplay; dmPrintChar 72;
           dmSetScrolling 1 0 0; dmClearDisplay; dmPrintChar 73], m') /\
    eeprom m' = ee_two /\ msg_ptr m' = 0.
Proof.
  assert (Hne : [(3, [Literal 72]); (5, [Literal 73])] <> []) by discriminate.
  assert (Hbw : Forall (fun w : waits => between_ifs w = [])
                  [mkWaits [pin_up] [pin_down] [pin_down] [] [] [] [] [] [];
                   no_waits])
    by (repeat constructor).
  assert (Hw : Forall (fun w : waits => before_play w = [] /\ in_play w = [])
                 [mkWaits [pin_up] [pin_down] [pin_down] [] [] [] [] [] [];
                  no_waits] \/
               Z.lor PB_LONGPRESS PB_ACK <> PB_LONGPRESS)
    by (right; discriminate).
  assert (Hok : Forall (fun msg : Z * list unit_ =>
                          forallb unit_ok (snd msg) = true)
                       [(3, [Literal 72]); (5, [Literal 73])])
    by (repeat constructor).
  assert (Hfuel : Forall (fun msg : Z * list unit_ =>
                            (length (encode (snd msg)) <= 1)%nat)
                         [(3, [Literal 72]); (5, [Literal 73])])
    by (repeat constructor).
  assert (Hmode : Forall (fun msg : Z * list unit_ => fst msg <> 0)
                         (tl [(3, [Literal 72]); (5, [Literal 73])]))
    by (repeat constructor; discriminate).
  assert (Hst : stored ee_two 0 (lay_out [(3, [Literal 72]); (5, [Literal 73])]))
    by (cbn; repeat split).
  exact (short_presses_go_round 1 [(3, [Literal 72]); (5, [Literal 73])]
           [mkWaits [pin_up] [pin_down] [pin_down] [] [] [] [] [] []; no_waits]
           (power_on ee_two) sample_codes_ok Hne eq_refl Hbw Hw Hok Hfuel Hmode
           eq_refl Hst).
Defined.

(** The button is still down during the delay, up before the sleep, and
    pressed again to wake the device. *)
Lemma long_press_restarts_list_witness :
  exists m',
    main_loop_body 2 (mkWaits [] [] [] [] [pin_down; pin_down] [pin_up]
                              [pin_down] [pin_down; pin_up] [pin_up])
      (set_msg_ptr 3 (set_button PB_LONGPRESS (power_on ee_two))) =
    Some ([dmClearDisplay; dmPrintChar 130; dmClearDisplay; dmPrintChar 131;
           dmSetScrolling 1 0 0; dmClearDisplay; dmPrintChar 72], m') /\
    eeprom m' = ee_two /\
    Z.land (button m') PB_ACK = PB_ACK /\
    msg_ptr m' = 3.
Proof.
  assert (Hst : stored ee_two 0 (3 :: encode [Literal 72] ++ [0]))
    by (cbn; repeat split).
  assert (Hfuel : (length (encode [Literal 72]) <= 2)%nat) by (cbn; lia).
  exact (long_press_restarts_list
           2 (mkWaits [] [] [] [] [pin_down; pin_down] [pin_up]
                      [pin_down] [pin_down; pin_up] [pin_up])
           (set_msg_ptr 3 (set_button PB_LONGPRESS (power_on ee_two)))
           3 [Literal 72] sample_codes_ok eq_refl eq_refl eq_refl
           Hst Hfuel).
Defined.

Lemma power_on_byte_valued : byte_valued (power_on blank_eeprom).
Proof.
  unfold byte_valued. vm_compute.
  repeat split; (reflexivity || (intros E; discriminate E)).
Defined.

Lemma byte_variables_stay_bytes_witness :
  byte_valued (snd (TIMER0_COMPB_vect pin_down (power_on blank_eeprom))).
Proof.
  exact (proj1 (proj2 (byte_variables_stay_bytes
                         false 0 pin_down 0 0 (power_on blank_eeprom)
                         power_on_byte_valued))).
Defined.

(** ['^'] and a carriage return: the byte 76 is stored, the message is
    not ended. *)
Lemma serial_escape_stores_shifted_witness :
  eeprom (snd (receive [94; 13] (set_state EE_NORMAL (power_on blank_eeprom))))
  = eeprom_write_byte blank_eeprom 0 (13 + 63).
Proof.
  assert (Hc : 0 <= 13 < 256) by lia.
  assert (H27 : 13 <> 27) by lia.
  exact (proj1 (serial_escape_stores_shifted
                  13 (set_state EE_NORMAL (power_on blank_eeprom))
                  eq_refl Hc H27)).
Defined.

Lemma press_after_release_starts_timer_witness :
  button (tick (pin_down, no_ack)
               (tick_step (pin_up, ack_after)
                          (set_button PB_LONGPRESS (power_on blank_eeprom))))
  = 1 /\
  pb_timer (tick (pin_down, no_ack)
                 (tick_step (pin_up, ack_after)
                            (set_button PB_LONGPRESS (power_on blank_eeprom))))
  = 2.
Proof.
  assert (Hup : released (pin_up, ack_after)) by reflexivity.
  assert (Hdown : pressed (pin_down, no_ack)) by discriminate.
  assert (Hacross : snd (pin_up, ack_after) = ack_across ->
                    at_rest (set_button PB_LONGPRESS (power_on blank_eeprom)))
    by discriminate.
  exact (press_after_release_starts_timer
           (pin_up, ack_after) (pin_down, no_ack)
           (set_button PB_LONGPRESS (power_on blank_eeprom))
           sample_codes_ok Hup Hdown Hacross).
Defined.
